(** * Reconciliation of a card statement against a Mobills export

    A shallow embedding of [src/reconciler.py]: the numeric normaliser
    [normalise_numeric], the matching engine [reconcile] and the command
    line around them ([choose_columns], [load_file], [main]), with the
    properties the specification states about them and further ones read
    off the code.

    Conventions of the embedding.
    - A Python [float] is an IEEE 754 binary64 value, [spec_float] with
      [prec = 53] and [emax = 1024]; [==] on floats is [SFeqb], [-] is
      [SFsub].
    - A Python [str] is a [string] of ASCII characters.  Code points above
      127 (Unicode digits and blanks) are outside the model; the messages
      of the command line are kept as their UTF-8 bytes.
    - A Python [int] is a [Z], and [str] prints all its digits: the
      interpreter's adjustable limit on the digits of [str(int)] and of
      [int(str)] (4300 by default, beyond any cell a table file yields) is
      outside the model.
    - A pandas [DataFrame] is its column labels and its rows in order, each
      row an index label with a dictionary from column label to cell.
    - A pandas [Timestamp] is its count of nanoseconds since the epoch, with
      no time zone: columns of zone-aware dates are outside the model.
    - What the program borrows from the Python runtime and from pandas
      without defining it ([str] of a float or of a timestamp,
      [pd.to_datetime], [Series.sum]) is the interface [Runtime]; theorems
      hold for every implementation of it, and [reference_runtime] is one
      implementation on which the model runs.  The readers and the writer
      of pandas and the formatting of amounts are the interface [Library]
      of the command line. *)

From Stdlib Require Import ZArith Floats Ascii String.
From stdpp Require Import base option list strings pretty gmap.

Set Warnings "-inexact-float".

Open Scope Z_scope.

(** ** Cells *)

(** The values a table cell holds: [None], a boolean, an integer, a float
    (with [NaN] for a missing number), text, a pandas [Timestamp] in
    nanoseconds since the epoch, or [NaT]. *)
Inductive pyvalue :=
| PyNone
| PyBool (b : bool)
| PyInt (n : Z)
| PyFloat (x : spec_float)
| PyStr (s : string)
| PyTimestamp (t : Z)
| PyNaT.

#[global] Instance pyvalue_inhabited : Inhabited pyvalue := populate PyNone.

(** ** Binary64 *)

Definition prec : Z := 53.
Definition emax : Z := 1024.

Definition is_nan (x : spec_float) : bool :=
  match x with S754_nan => true | _ => false end.

Definition is_inf (x : spec_float) : bool :=
  match x with S754_infinity _ => true | _ => false end.

Definition is_finite (x : spec_float) : bool :=
  match x with S754_zero _ | S754_finite _ _ _ => true | _ => false end.

(** The binary64 value nearest to [(-1)^neg * m * 10^e] (ties to even), as
    CPython's [strtod] computes it; an overflow gives an infinity. *)
Definition decimal_to_float (neg : bool) (m e : Z) : spec_float :=
  match m with
  | Zpos p =>
      match e with
      | Zneg k =>
          SFdiv prec emax (S754_finite neg p 0) (S754_finite false (10 ^ k)%positive 0)
      | _ => binary_normalize prec emax (cond_Zopp neg (Zpos p * 10 ^ e)) 0 false
      end
  | _ => S754_zero neg
  end.

(** ** Text *)

(** [str.isspace] on ASCII: TAB to CR, FS to US, and the blank. *)
Definition is_space (c : ascii) : bool :=
  let n := nat_of_ascii c in
  ((9 <=? n) && (n <=? 13) || (28 <=? n) && (n <=? 32))%nat.

Definition is_digit (c : ascii) : bool :=
  let n := nat_of_ascii c in ((48 <=? n) && (n <=? 57))%nat.

Definition digit_value (c : ascii) : Z := Z.of_nat (nat_of_ascii c) - 48.

Definition lower (c : ascii) : ascii :=
  let n := nat_of_ascii c in
  if ((65 <=? n) && (n <=? 90))%nat then ascii_of_nat (n + 32) else c.

(** Blanks for C's [isspace], which [float] strips: TAB to CR and the blank. *)
Definition is_c_space (c : ascii) : bool :=
  let n := nat_of_ascii c in ((9 <=? n) && (n <=? 13) || (n =? 32))%nat.

Fixpoint lstrip_by (blank : ascii → bool) (s : string) : string :=
  match s with
  | String c s' => if blank c then lstrip_by blank s' else s
  | EmptyString => EmptyString
  end.

Fixpoint rstrip_by (blank : ascii → bool) (s : string) : string :=
  match s with
  | EmptyString => EmptyString
  | String c s' =>
      match rstrip_by blank s' with
      | EmptyString => if blank c then EmptyString else String c EmptyString
      | r => String c r
      end
  end.

(** [s.strip()] *)
Definition strip (s : string) : string := rstrip_by is_space (lstrip_by is_space s).

(** The text between the blanks [float] skips at both ends. *)
Definition c_strip (s : string) : string := rstrip_by is_c_space (lstrip_by is_c_space s).

(** [re.sub(cls, "", s)] for a character class [cls]. *)
Fixpoint remove_chars (cls : ascii → bool) (s : string) : string :=
  match s with
  | EmptyString => EmptyString
  | String c s' => if cls c then remove_chars cls s' else String c (remove_chars cls s')
  end.

(** [s.count(c)] for a one-character [c]. *)
Fixpoint count_char (c : ascii) (s : string) : nat :=
  match s with
  | EmptyString => 0%nat
  | String d s' => ((if Ascii.eqb d c then 1 else 0) + count_char c s')%nat
  end.

(** [c in s] *)
Fixpoint contains_char (c : ascii) (s : string) : bool :=
  match s with
  | EmptyString => false
  | String d s' => Ascii.eqb d c || contains_char c s'
  end.

(** [s.replace(a, b)] for one-character [a] and [b]. *)
Fixpoint replace_char (a b : ascii) (s : string) : string :=
  match s with
  | EmptyString => EmptyString
  | String c s' => String (if Ascii.eqb c a then b else c) (replace_char a b s')
  end.

(** [s.replace(a, "")] *)
Definition delete_char (a : ascii) (s : string) : string :=
  remove_chars (fun c => Ascii.eqb c a) s.

(** The class [[Rr\$\s]] of line 37. *)
Definition currency_or_space (c : ascii) : bool :=
  Ascii.eqb c "R" || Ascii.eqb c "r" || Ascii.eqb c "$" || is_space c.

(** ** [float(s)] on text

    The grammar of the language reference, between blanks:
    [[sign] (digitpart ["."] | [digitpart] "." digitpart) [exponent]], or a
    signed [inf], [infinity] or [nan] in any case; a [_] may stand between
    two digits.  [None] is [ValueError]. *)

(** The underscore screen: a [_] is dropped when a digit stands before it
    and after it, and refuses the text otherwise. [prev] is the character
    just read. *)
Fixpoint strip_underscores (prev : ascii) (s : string) : option string :=
  match s with
  | EmptyString => if Ascii.eqb prev "_" then None else Some EmptyString
  | String c s' =>
      if Ascii.eqb c "_" then
        if is_digit prev then strip_underscores c s' else None
      else if Ascii.eqb prev "_" && negb (is_digit c) then None
      else String c <$> strip_underscores c s'
  end.

Definition parse_sign (s : string) : bool * string :=
  match s with
  | String "-" r => (true, r)
  | String "+" r => (false, r)
  | _ => (false, s)
  end.

(** The longest prefix of digits, and the rest. *)
Fixpoint span_digits (s : string) : list ascii * string :=
  match s with
  | String c s' =>
      if is_digit c then let '(ds, r) := span_digits s' in (c :: ds, r)
      else ([], s)
  | EmptyString => ([], EmptyString)
  end.

Definition digits_to_Z (ds : list ascii) : Z :=
  fold_left (fun acc d => 10 * acc + digit_value d) ds 0.

(** [s] read without case equals the lower-case word [w]. *)
Fixpoint eq_nocase (s w : string) : bool :=
  match s, w with
  | EmptyString, EmptyString => true
  | String c s', String d w' => Ascii.eqb (lower c) d && eq_nocase s' w'
  | _, _ => false
  end.

(** What may follow the mantissa: nothing, or [e], a sign and digits. *)
Definition parse_exponent (s : string) : option Z :=
  match s with
  | EmptyString => Some 0
  | String c r =>
      if Ascii.eqb c "e" || Ascii.eqb c "E" then
        let '(neg, r1) := parse_sign r in
        match span_digits r1 with
        | ((_ :: _) as ds, EmptyString) => Some (cond_Zopp neg (digits_to_Z ds))
        | _ => None
        end
      else None
  end.

(** A decimal numeral as its integer digits, fraction digits and exponent. *)
Definition parse_number (s : string) : option (list ascii * list ascii * Z) :=
  let '(ip, r) := span_digits s in
  let '(fp, r') :=
    match r with
    | String "." r1 => span_digits r1
    | _ => ([], r)
    end in
  match ip, fp with
  | [], [] => None
  | _, _ => e ← parse_exponent r'; Some (ip, fp, e)
  end.

Definition float_of_numeral (neg : bool) (n : list ascii * list ascii * Z) : spec_float :=
  let '(ip, fp, e) := n in
  decimal_to_float neg (digits_to_Z (ip ++ fp)) (e - Z.of_nat (length fp)).

Definition float_from_string (s : string) : option spec_float :=
  s ← strip_underscores "000" (c_strip s);
  let '(neg, body) := parse_sign s in
  if eq_nocase body "inf" || eq_nocase body "infinity" then Some (S754_infinity neg)
  else if eq_nocase body "nan" then Some S754_nan
  else float_of_numeral neg <$> parse_number body.

(** ** The runtime interface *)

Class Runtime := {
  (** [str(x)] for a float [x] *)
  float_str : spec_float → string;
  (** [str(t)] for a pandas [Timestamp] *)
  timestamp_str : Z → string;
  (** [pd.to_datetime(column, errors="coerce", dayfirst=True)]: one
      timestamp or [NaT] (here [None]) for each cell of the column *)
  to_datetime : list pyvalue → list (option Z);
  to_datetime_length : ∀ col, length (to_datetime col) = length col;
  (** [Series.sum()] over a column of floats *)
  series_sum : list spec_float → spec_float
}.

(** [str(value)] *)
Definition py_str `{Runtime} (value : pyvalue) : string :=
  match value with
  | PyNone => "None"
  | PyBool b => if b then "True" else "False"
  | PyInt n => pretty n
  | PyFloat x => float_str x
  | PyStr s => s
  | PyTimestamp t => timestamp_str t
  | PyNaT => "NaT"
  end.

(** ** The numeric normaliser (lines 27 to 45) *)

(** Lines 36 to 41: the text handed to [float], from [str(value)]. *)
Definition cleaned (text : string) : string :=
  let s := strip text in
  let s := remove_chars currency_or_space s in
  let s :=
    if contains_char "," s && (count_char "," s =? 1)%nat
    then replace_char "," "." (delete_char "." s) else s in
  let s := if (1 <? count_char "," s)%nat then delete_char "," s else s in
  s.

Definition normalise_numeric `{Runtime} (value : pyvalue) : option spec_float :=
  match value with
  | PyNone => None
  | PyFloat S754_nan => None
  | _ => float_from_string (cleaned (py_str value))
  end.

(** ** Frames *)

Abbreviation row := (gmap string pyvalue).

(** A [DataFrame]: the column labels, and the rows in order, each with its
    index label.  Column labels are distinct, as the readers of [load_file]
    make them. *)
Record DataFrame := mkDataFrame {
  columns : list string;
  rows : list (nat * row)
}.

Inductive pyexn :=
| KeyError (label : string).

(** A call returns a value or raises. *)
Inductive result (A : Type) :=
| Ok (a : A)
| Raise (e : pyexn).
Arguments Ok {A} a.
Arguments Raise {A} e.

Definition bind {A B : Type} (r : result A) (k : A → result B) : result B :=
  match r with
  | Ok a => k a
  | Raise e => Raise e
  end.

Notation "'let*' x := r 'in' k" := (bind r (fun x => k))
  (at level 10, x pattern, r at level 100, k at level 200).

(** [df.copy()]: a frame of its own with the same content. *)
Definition copy (df : DataFrame) : DataFrame := df.

(** [df.reset_index(drop=True)]: the rows are labelled [0, 1, ...]. *)
Definition reset_index (df : DataFrame) : DataFrame :=
  mkDataFrame (columns df) (imap (fun i r => (i, r.2)) (rows df)).

(** The cells of column [c], top to bottom. *)
Definition cells (df : DataFrame) (c : string) : list pyvalue :=
  (fun r => r.2 !!! c) <$> rows df.

(** [df[c]]: the cells of column [c], or [KeyError]. *)
Definition getitem (df : DataFrame) (c : string) : result (list pyvalue) :=
  if bool_decide (c ∈ columns df) then Ok (cells df c) else Raise (KeyError c).

(** [df[c] = cells]: column [c] is replaced, or added as the last one. *)
Definition setitem (c : string) (cells : list pyvalue) (df : DataFrame) : DataFrame :=
  mkDataFrame
    (if bool_decide (c ∈ columns df) then columns df else columns df ++ [c])
    (zip_with (fun r v => (r.1, <[c := v]> r.2)) (rows df) cells).

(** [df[c] = v] for a scalar [v]. *)
Definition setitem_scalar (c : string) (v : pyvalue) (df : DataFrame) : DataFrame :=
  mkDataFrame
    (if bool_decide (c ∈ columns df) then columns df else columns df ++ [c])
    ((fun r => (r.1, <[c := v]> r.2)) <$> rows df).

(** [pd.isna] on a cell *)
Definition isna (v : pyvalue) : bool :=
  match v with
  | PyNone | PyNaT => true
  | PyFloat x => is_nan x
  | _ => false
  end.

(** [df.dropna(subset=cs)] *)
Definition dropna (cs : list string) (df : DataFrame) : DataFrame :=
  mkDataFrame (columns df)
    (filter (fun r => forallb (fun c => negb (isna (r.2 !!! c))) cs = true) (rows df)).

(** [df[mask]] for a boolean mask computed row by row. *)
Definition select (mask : row → bool) (df : DataFrame) : DataFrame :=
  mkDataFrame (columns df) (filter (fun r => mask r.2 = true) (rows df)).

(** [df.at[idx, c] = v]: the cell of column [c] in the row labelled [idx]. *)
Definition at_set_row (idx : nat) (c : string) (v : pyvalue) (r : nat * row) : nat * row :=
  if bool_decide (r.1 = idx) then (r.1, <[c := v]> r.2) else r.

Definition at_set (idx : nat) (c : string) (v : pyvalue) (df : DataFrame) : DataFrame :=
  mkDataFrame (columns df) (at_set_row idx c v <$> rows df).

(** [df.iterrows()]: the rows as they were when the iteration started. *)
Definition iterrows (df : DataFrame) : list (nat * row) := rows df.

(** [==] on the cells the loop compares: flags, timestamps and floats. *)
Definition cell_eqb (a b : pyvalue) : bool :=
  match a, b with
  | PyBool x, PyBool y => eqb x y
  | PyTimestamp x, PyTimestamp y => x =? y
  | PyFloat x, PyFloat y => SFeqb x y
  | _, _ => false
  end.

(** The truth value of a flag cell. *)
Definition as_bool (v : pyvalue) : bool :=
  match v with
  | PyBool b => b
  | _ => false
  end.

(** The floats of a column, as [sum] reads them (missing cells skipped). *)
Definition float_cells (cells : list pyvalue) : list spec_float :=
  omap (fun v => match v with
                 | PyFloat x => if is_nan x then None else Some x
                 | _ => None
                 end) cells.

(** The cell that holds a parsed date, and the one that holds a parsed value. *)
Definition date_cell (d : option Z) : pyvalue :=
  match d with
  | Some t => PyTimestamp t
  | None => PyNaT
  end.

Definition value_cell (v : option spec_float) : pyvalue :=
  match v with
  | Some x => PyFloat x
  | None => PyNone
  end.

(** ** The reconciliation engine (lines 48 to 83) *)

Record MatchResult := mkMatchResult {
  unmatched_f : DataFrame;
  unmatched_m : DataFrame;
  total_f : spec_float;
  total_m : spec_float;
  difference : spec_float
}.

(** The mask of line 73, for the statement row [row_f]. *)
Definition candidate (row_f : row) (r : row) : bool :=
  cell_eqb (r !!! "_matched") (PyBool false)
  && cell_eqb (r !!! "_date") (row_f !!! "_date")
  && cell_eqb (r !!! "_value") (row_f !!! "_value").

(** One turn of the loop of lines 70 to 77. *)
Definition match_step (st : DataFrame * DataFrame) (it : nat * row) : DataFrame * DataFrame :=
  let '(f_valid, m_valid) := st in
  let '(idx_f, row_f) := it in
  if as_bool (row_f !!! "_matched") then st
  else
    let candidates := select (candidate row_f) m_valid in
    match rows candidates with
    | [] => st
    | (idx_m, _) :: _ =>
        (at_set idx_f "_matched" (PyBool true) f_valid,
         at_set idx_m "_matched" (PyBool true) m_valid)
    end.

Definition matching_loop (f_valid m_valid : DataFrame) : DataFrame * DataFrame :=
  fold_left match_step (iterrows f_valid) (f_valid, m_valid).

(** Lines 66 to 83, on the two annotated frames. *)
Definition reconcile_frames `{Runtime} (f m : DataFrame) : MatchResult :=
  let f_valid := copy (dropna ["_date"; "_value"] f) in
  let m_valid := copy (dropna ["_date"; "_value"] m) in
  let f_valid := setitem_scalar "_matched" (PyBool false) f_valid in
  let m_valid := setitem_scalar "_matched" (PyBool false) m_valid in
  let '(f_valid, m_valid) := matching_loop f_valid m_valid in
  let unmatched_f := select (fun r => negb (as_bool (r !!! "_matched"))) f_valid in
  let unmatched_m := select (fun r => negb (as_bool (r !!! "_matched"))) m_valid in
  let total_f := series_sum (float_cells (cells f_valid "_value")) in
  let total_m := series_sum (float_cells (cells m_valid "_value")) in
  let difference := SFsub prec emax total_f total_m in
  mkMatchResult unmatched_f unmatched_m total_f total_m difference.

(** Lines 62 and 63: the [_date] column. *)
Definition with_date `{Runtime} (col : list pyvalue) (df : DataFrame) : DataFrame :=
  setitem "_date" (date_cell <$> to_datetime col) df.

(** Lines 64 and 65: the [_value] column. *)
Definition with_value `{Runtime} (col : list pyvalue) (df : DataFrame) : DataFrame :=
  setitem "_value" (value_cell ∘ normalise_numeric <$> col) df.

Definition reconcile `{Runtime} (df_fatura df_mobills : DataFrame)
    (date_col_f value_col_f date_col_m value_col_m : string) : result MatchResult :=
  let f := reset_index (copy df_fatura) in
  let m := reset_index (copy df_mobills) in
  let* col := getitem f date_col_f in
  let f := with_date col f in
  let* col := getitem m date_col_m in
  let m := with_date col m in
  let* col := getitem f value_col_f in
  let f := with_value col f in
  let* col := getitem m value_col_m in
  let m := with_value col m in
  Ok (reconcile_frames f m).

(** One table after lines 60 to 65, when its two columns exist. *)
Definition annotation `{Runtime} (df : DataFrame) (date_col value_col : string)
    : DataFrame :=
  let f := reset_index (copy df) in
  let f := with_date (cells f date_col) f in
  with_value (cells f value_col) f.

(** ** The run on a store of objects

    The same lines with the frames as objects in a store, by address:
    [.copy()], [.reset_index], [.dropna] and a mask make a new object,
    [df[c] = ...] and [df.at[...] = ...] change the object in place. *)

#[global] Instance DataFrame_inhabited : Inhabited DataFrame := populate (mkDataFrame [] []).

Abbreviation store := (gmap nat DataFrame).









(** ** The command line (lines 86 to 160)

    The console and the files are a [world] the calls pass along; what
    pandas reads, writes and formats is the interface [Library]. [main] is
    taken from its parsed arguments on. *)

(** What ends a call before its [return]: [sys.exit(code)], the end of the
    input under [input()], an exception of the engine, or one raised inside
    pandas, with its text. *)
Inductive exception :=
| SystemExit (code : Z)
| EOFError
| EngineError (e : pyexn)
| LibraryError (msg : string).

(** The lines still to be read, the texts written to the console and the
    files written, first to last. *)
Record world := mkWorld {
  stdin : list string;
  stdout : list string;
  written : list (string * DataFrame)
}.

(** A call: from the world it finds, its value or its exception, and the
    world it leaves. *)
Definition io (A : Type) : Type := world → (A + exception) * world.

Definition io_ret {A} (a : A) : io A := fun w => (inl a, w).

Definition io_raise {A} (e : exception) : io A := fun w => (inr e, w).

Definition io_bind {A B} (m : io A) (k : A → io B) : io B :=
  fun w =>
    match m w with
    | (inl a, w') => k a w'
    | (inr e, w') => (inr e, w')
    end.

Notation "'let!' x := m 'in' k" := (io_bind m (fun x => k))
  (at level 10, x pattern, m at level 100, k at level 200).

(** The line feed. *)
Definition nl : string := String "010" EmptyString.

(** [print(s)] *)
Definition print (s : string) : io unit :=
  fun w => (inl tt, mkWorld (stdin w) (stdout w ++ [s +:+ nl]) (written w)).

(** [input(prompt)]: the prompt is written, a line is read. *)
Definition input (prompt : string) : io string :=
  fun w =>
    match stdin w with
    | [] => (inr EOFError, mkWorld [] (stdout w ++ [prompt]) (written w))
    | line :: rest => (inl line, mkWorld rest (stdout w ++ [prompt]) (written w))
    end.

(** [sys.exit(code)] *)
Definition sys_exit {A} (code : Z) : io A := io_raise (SystemExit code).

(** [for x in l: body(x)] *)
Fixpoint for_each {A} (l : list A) (body : A → io unit) : io unit :=
  match l with
  | [] => io_ret tt
  | x :: l' => let! _ := body x in for_each l' body
  end.

(** [int(s)] for a text [s], in base ten; [None] is [ValueError]. *)
Definition int_of_string (s : string) : option Z :=
  let '(neg, body) := parse_sign (c_strip s) in
  body ← strip_underscores "000" body;
  match span_digits body with
  | ((_ :: _) as ds, EmptyString) => Some (cond_Zopp neg (digits_to_Z ds))
  | _ => None
  end.

(** [index[i]] on the labels of a frame: a negative [i] counts from the
    end; [None] is [IndexError]. *)
Definition index_getitem (cols : list string) (i : Z) : option string :=
  let n := Z.of_nat (length cols) in
  if (0 <=? i) && (i <? n) then cols !! Z.to_nat i
  else if (- n <=? i) && (i <? 0) then cols !! Z.to_nat (n + i)
  else None.

(** Lines 97 and 98: the two entries as column labels. *)
Definition chosen (df : DataFrame) (idx_date idx_value : string) : option (string * string) :=
  i ← int_of_string idx_date;
  date_col ← index_getitem (columns df) i;
  j ← int_of_string idx_value;
  value_col ← index_getitem (columns df) j;
  Some (date_col, value_col).

Definition choose_columns (df : DataFrame) (role : string) : io (string * string) :=
  let! _ := print (nl +:+ "Colunas disponíveis no arquivo " +:+ role +:+ ":") in
  let! _ := for_each (imap pair (columns df))
              (fun ic => print ("  [" +:+ pretty ic.1 +:+ "] " +:+ ic.2)) in
  let! idx_date :=
    input ("Selecione o índice da coluna que representa a **Data** no " +:+ role +:+ ": ") in
  let! idx_value :=
    input ("Selecione o índice da coluna que representa o **Valor** no " +:+ role +:+ ": ") in
  match chosen df idx_date idx_value with
  | Some cols => io_ret cols
  | None => let! _ := print "Entrada inválida. Abortando." in sys_exit 1
  end.

(** What the program takes from pandas and from the formatting of floats. *)
Class Library := {
  (** [pd.read_csv(path, encoding=enc)], or [pd.read_csv(path)]: the table,
      or the text of the exception raised *)
  read_csv : string → option string → DataFrame + string;
  (** [pd.read_excel(path)] *)
  read_excel : string → DataFrame + string;
  (** [df.to_csv(path, index=False)]: the text of the exception raised, if
      the file cannot be written *)
  to_csv_error : DataFrame → string → option string;
  (** [f"{x:,.2f}"] *)
  format_2f : spec_float → string
}.

(** [s.lower()] *)
Fixpoint lower_string (s : string) : string :=
  match s with
  | EmptyString => EmptyString
  | String c s' => String (lower c) (lower_string s')
  end.

(** [s.split(sep)] for a one-character [sep]. *)
Fixpoint split (sep : ascii) (s : string) : list string :=
  match s with
  | EmptyString => [EmptyString]
  | String c s' =>
      if Ascii.eqb c sep then EmptyString :: split sep s'
      else
        match split sep s' with
        | part :: parts => String c part :: parts
        | [] => [String c EmptyString]
        end
  end.

(** [l[-1]] on the parts of a split, of which there is always one. *)
Definition last_part (l : list string) : string := default EmptyString (last l).

(** Line 107 *)
Definition extension (path : string) : string :=
  last_part (split "." (lower_string path)).

(** Lines 110 to 114: the first encoding with which the file reads. *)
Fixpoint read_with `{Library} (path : string) (encodings : list string) : option DataFrame :=
  match encodings with
  | [] => None
  | encoding :: rest =>
      match read_csv path (Some encoding) with
      | inl df => Some df
      | inr _ => read_with path rest
      end
  end.

Definition load_file `{Library} (path : string) : DataFrame + string :=
  if bool_decide (extension path = "csv") then
    match read_with path ["utf-8"; "latin-1"] with
    | Some df => inl df
    | None => read_csv path None
    end
  else read_excel path.






(** ** The specification's data model *)

(** A normalized record: the row's index label, its parsed date and value,
    and the [matched] flag. *)
Record NormalizedRecord := mkRecord {
  index : nat;
  parsed_date : Z;
  parsed_value : spec_float;
  matched : bool
}.

(** The parsed date of an annotated row, absent when it was unparseable. *)
Definition row_date (r : row) : option Z :=
  match r !!! "_date" with
  | PyTimestamp t => Some t
  | _ => None
  end.

(** The parsed value of an annotated row, absent when it was unparseable. *)
Definition row_value (r : row) : option spec_float :=
  match r !!! "_value" with
  | PyFloat x => if is_nan x then None else Some x
  | _ => None
  end.

(** A row with both fields present, as a record with its flag down. *)
Definition normalized (r : nat * row) : option NormalizedRecord :=
  t ← row_date r.2; x ← row_value r.2; Some (mkRecord r.1 t x false).

(** [validA]: the records of an annotated table with both fields present,
    in the table's order. *)
Definition valid_records (f : DataFrame) : list NormalizedRecord :=
  omap normalized (rows f).

(** [validA] of a table, for its designated columns. *)
Definition valid `{Runtime} (df : DataFrame) (date_col value_col : string)
    : list NormalizedRecord :=
  valid_records (annotation df date_col value_col).

Definition same_key (a b : NormalizedRecord) : bool :=
  (parsed_date b =? parsed_date a) && SFeqb (parsed_value b) (parsed_value a).

Definition mark (a : NormalizedRecord) : NormalizedRecord :=
  mkRecord (index a) (parsed_date a) (parsed_value a) true.

(** The scan of [validB] for the first unmatched record with the key of
    [a]; that record is marked, or there is none. *)
Fixpoint first_unmatched (a : NormalizedRecord) (B : list NormalizedRecord)
    : option (list NormalizedRecord) :=
  match B with
  | [] => None
  | b :: B' =>
      if negb (matched b) && same_key a b then Some (mark b :: B')
      else cons b <$> first_unmatched a B'
  end.

(** The matching of section 4.2, by recursion on [validA]. *)
Fixpoint greedy_match (A B : list NormalizedRecord)
    : list NormalizedRecord * list NormalizedRecord :=
  match A with
  | [] => ([], B)
  | a :: A' =>
      if matched a then
        let '(A'', B'') := greedy_match A' B in (a :: A'', B'')
      else
        match first_unmatched a B with
        | Some B1 => let '(A'', B'') := greedy_match A' B1 in (mark a :: A'', B'')
        | None => let '(A'', B'') := greedy_match A' B in (a :: A'', B'')
        end
  end.

Definition unmatched (l : list NormalizedRecord) : list NormalizedRecord :=
  filter (fun a => matched a = false) l.

(** How many records of [l] have the date and the value of [a]. *)
Definition count_key (a : NormalizedRecord) (l : list NormalizedRecord) : nat :=
  length (filter (fun b => same_key a b = true) l).


(** The records of [l] left over against [other], in closed form: a record
    stays when [other] holds no more records of its key than stand before
    it in its own table ([seen], then the part of [l] already passed). *)
Fixpoint surplus (seen l other : list NormalizedRecord) : list NormalizedRecord :=
  match l with
  | [] => []
  | a :: l' =>
      (if (count_key a seen <? count_key a other)%nat then [] else [a])
      ++ surplus (seen ++ [a]) l' other
  end.

(** The regional rule of section 4.1, by cases on the number of commas:
    none, the text as it is; one, the dots go and the comma becomes the
    decimal point; more, the commas go. *)
Definition regional (s : string) : string :=
  match count_char "," s with
  | 0%nat => s
  | 1%nat => replace_char "," "." (delete_char "." s)
  | _ => delete_char "," s
  end.

Fixpoint has_digit (s : string) : bool :=
  match s with
  | EmptyString => false
  | String c s' => is_digit c || has_digit s'
  end.

(** The text is [nan], signed or not, in any case. *)
Definition nan_word (s : string) : bool :=
  eq_nocase (parse_sign (c_strip s)).2 "nan".

(** [x] rounded to two decimal places, half to even on its exact value, as
    [round(x, 2)] gives it. *)
Definition round2 (x : spec_float) : spec_float :=
  match x with
  | S754_finite s m e =>
      let num := if 0 <=? e then Zpos m * 2 ^ e * 100 else Zpos m * 100 in
      let den := if 0 <=? e then 1 else 2 ^ (- e) in
      let q := num / den in
      let r := num mod den in
      let n :=
        if 2 * r <? den then q
        else if den <? 2 * r then q + 1
        else if Z.even q then q else q + 1 in
      decimal_to_float s n (-2)
  | _ => x
  end.

(** ** Reading a result *)

(** The record a row of a valid frame stands for, flag included. *)
Definition record_of (r : nat * row) : NormalizedRecord :=
  mkRecord r.1
    (match r.2 !!! "_date" with PyTimestamp t => t | _ => 0 end)
    (match r.2 !!! "_value" with PyFloat x => x | _ => S754_nan end)
    (as_bool (r.2 !!! "_matched")).

(** A row of a valid frame: a timestamp, a float that is a number, a flag. *)
Definition valid_row (r : nat * row) : Prop :=
  (∃ t, r.2 !!! "_date" = PyTimestamp t)
  ∧ (∃ x, r.2 !!! "_value" = PyFloat x ∧ is_nan x = false)
  ∧ (∃ b, r.2 !!! "_matched" = PyBool b).

Definition labels (l : list (nat * row)) : list nat := fst <$> l.

(** A row without the three columns the engine writes. *)
Definition strip_derived (r : nat * row) : nat * row :=
  (r.1, delete "_date" (delete "_value" (delete "_matched" r.2))).

(** A record without its index label. *)
Definition key_of (a : NormalizedRecord) : Z * spec_float * bool :=
  (parsed_date a, parsed_value a, matched a).

(** ** Notions of the proofs *)

(** The same recursion on rows, flags in the [_matched] cell. *)
Definition mark_row (r : nat * row) : nat * row :=
  (r.1, <["_matched" := PyBool true]> r.2).

Fixpoint first_candidate (row_f : row) (B : list (nat * row)) : option (list (nat * row)) :=
  match B with
  | [] => None
  | b :: B' =>
      if candidate row_f b.2 then Some (mark_row b :: B')
      else cons b <$> first_candidate row_f B'
  end.

Fixpoint greedy_rows (A B : list (nat * row)) : list (nat * row) * list (nat * row) :=
  match A with
  | [] => ([], B)
  | a :: A' =>
      if as_bool (a.2 !!! "_matched") then
        let '(A'', B'') := greedy_rows A' B in (a :: A'', B'')
      else
        match first_candidate a.2 B with
        | Some B1 => let '(A'', B'') := greedy_rows A' B1 in (mark_row a :: A'', B'')
        | None => let '(A'', B'') := greedy_rows A' B in (a :: A'', B'')
        end
  end.

(** A record of [B] keeps its place, label, date and value; a raised flag
    stays raised. *)
Definition evolves (b b' : NormalizedRecord) : Prop :=
  index b' = index b ∧ parsed_date b' = parsed_date b
  ∧ parsed_value b' = parsed_value b ∧ (matched b = true → matched b' = true).

Definition count_matched (l : list NormalizedRecord) : nat :=
  length (filter (fun a => matched a = true) l).

(** A row after lines 62 to 65: [_date] holds a timestamp or [NaT],
    [_value] a float or [None]. *)
Definition annotated_row (r : nat * row) : Prop :=
  (∃ d, r.2 !!! "_date" = date_cell d) ∧ (∃ v, r.2 !!! "_value" = value_cell v).

Definition annotated (f : DataFrame) : Prop :=
  NoDup (labels (rows f)) ∧ Forall annotated_row (rows f).

(** The rows of [f_valid] when the loop starts (lines 66 to 69). *)
Definition flag_down (r : nat * row) : nat * row :=
  (r.1, <["_matched" := PyBool false]> r.2).

Definition both_present (r : nat * row) : Prop :=
  forallb (fun c => negb (isna (r.2 !!! c))) ["_date"; "_value"] = true.

Definition valid_rows (f : DataFrame) : list (nat * row) :=
  flag_down <$> filter both_present (rows f).

Definition flag_is_down (r : nat * row) : Prop :=
  negb (as_bool (r.2 !!! "_matched")) = true.

(** [f_valid] when the loop starts. *)
Definition valid_frame (f : DataFrame) : DataFrame :=
  setitem_scalar "_matched" (PyBool false) (copy (dropna ["_date"; "_value"] f)).



(** The flags after the matching, with [seen] the records already passed. *)
Fixpoint settle (seen l other : list NormalizedRecord) : list NormalizedRecord :=
  match l with
  | [] => []
  | a :: l' =>
      (if (count_key a seen <? count_key a other)%nat then mark a else a)
      :: settle (seen ++ [a]) l' other
  end.

(** A row as it was, or with its flag raised. *)
Definition marked_from (r r' : nat * row) : Prop := r' = r ∨ r' = mark_row r.

(** Every character of [s] passes [p]. *)
Fixpoint all_chars (p : ascii → bool) (s : string) : bool :=
  match s with
  | EmptyString => true
  | String c s' => p c && all_chars p s'
  end.

(** A character the cleaning of lines 36 to 41 never touches. *)
Definition kept (c : ascii) : bool :=
  negb (currency_or_space c) && negb (Ascii.eqb c ",").

(** [cs] with the column [c], as [df[c] = ...] leaves the labels. *)
Definition with_column (c : string) (cs : list string) : list string :=
  if bool_decide (c ∈ cs) then cs else cs ++ [c].


(** The report on one table: of its valid rows, flags down, the ones whose
    labels are those of the records [left]. *)
Definition report (f : DataFrame) (left : list NormalizedRecord) : DataFrame :=
  mkDataFrame (columns (valid_frame f))
    (filter (fun r => r.1 ∈ index <$> left) (rows (valid_frame f))).

(** A reported row [r] against the table [A] it comes from: the row of [A]
    at the position [r] is labelled with, the timestamp [to_datetime] gave
    there, the float the normaliser gave for its value cell, and the cells
    of [A] everywhere else. *)
Definition reported_from `{Runtime} (A : DataFrame) (date_col value_col : string)
    (r : nat * row) : Prop :=
  ∃ l orig t x,
    rows A !! r.1 = Some (l, orig)
    ∧ to_datetime (cells A date_col) !! r.1 = Some (Some t)
    ∧ r.2 !! "_date" = Some (PyTimestamp t)
    ∧ r.2 !! "_value" = Some (PyFloat x) ∧ is_nan x = false
    ∧ (value_col ≠ "_date" → normalise_numeric (orig !!! value_col) = Some x)
    ∧ ∀ c, c ∉ ["_date"; "_value"; "_matched"] → r.2 !! c = orig !! c.

(** ** A reference runtime

    An implementation of [Runtime] on which the model runs: [repr] of a
    float as CPython prints it (the shortest digits that read back), the
    ISO text of a timestamp, a date parser for ISO calendar dates, integer
    nanoseconds and timestamps, and a left-to-right sum. *)

Definition digit_char (d : Z) : ascii := ascii_of_nat (Z.to_nat (48 + d)).

(** The decimal digits of [n >= 0], most significant first. *)
Fixpoint digits_of_aux (fuel : nat) (n : Z) (acc : list ascii) : list ascii :=
  match fuel with
  | O => acc
  | S fuel' =>
      if n <? 10 then digit_char n :: acc
      else digits_of_aux fuel' (n / 10) (digit_char (n mod 10) :: acc)
  end.

Definition digits_of (n : Z) : list ascii :=
  digits_of_aux (S (Z.to_nat (Z.log2 n))) n [].

(** [n] on at least [w] digits. *)
Definition zero_pad (w : nat) (n : Z) : list ascii :=
  let ds := digits_of n in replicate (w - length ds) "0"%char ++ ds.

Fixpoint drop_trailing_zeros (ds : list ascii) : list ascii :=
  match ds with
  | [] => []
  | d :: ds' =>
      match drop_trailing_zeros ds' with
      | [] => if Ascii.eqb d "0" then [] else [d]
      | r => d :: r
      end
  end.

(** The least [k], from [k0] upwards, with [num / den < 10^k]. *)
Fixpoint decimal_point (fuel : nat) (num den k : Z) : Z :=
  match fuel with
  | O => k
  | S fuel' =>
      let below := if 0 <=? k then num <? den * 10 ^ k else num * 10 ^ (- k) <? den in
      if below then k else decimal_point fuel' num den (k + 1)
  end.

(** The shortest digit string that reads back as [m * 2^e], with the
    position of its decimal point: the value is [0.d1d2... * 10^decpt]. *)
Fixpoint shortest_digits (fuel : nat) (n : Z) (m : positive) (e : Z) (k : Z)
    : list ascii * Z :=
  let x := S754_finite false m e in
  let num := if 0 <=? e then Zpos m * 2 ^ e else Zpos m in
  let den := if 0 <=? e then 1 else 2 ^ (- e) in
  (* s = x * 10^(n - k), as the fraction sn / sd *)
  let sn := if 0 <=? n - k then num * 10 ^ (n - k) else num in
  let sd := if 0 <=? n - k then den else den * 10 ^ (k - n) in
  let lo := sn / sd in
  let hi := lo + 1 in
  let reads d := SFeqb (decimal_to_float false d (k - n)) x in
  let lo_nearer := 2 * sn <=? (lo + hi) * sd in
  let pick d := (drop_trailing_zeros (digits_of d), Z.of_nat (length (digits_of d)) + (k - n)) in
  match fuel with
  | O => pick lo
  | S fuel' =>
      match reads lo, reads hi with
      | true, true => pick (if lo_nearer then lo else hi)
      | true, false => pick lo
      | false, true => pick hi
      | false, false => shortest_digits fuel' (n + 1) m e k
      end
  end.

Definition string_of (cs : list ascii) : string := string_of_list_ascii cs.

(** [repr(x)]: fixed notation when [-4 < decpt <= 16], else an exponent of
    at least two digits. *)
Definition float_repr (x : spec_float) : string :=
  match x with
  | S754_nan => "nan"
  | S754_infinity s => if s then "-inf" else "inf"
  | S754_zero s => if s then "-0.0" else "0.0"
  | S754_finite s m e =>
      let num := if 0 <=? e then Zpos m * 2 ^ e else Zpos m in
      let den := if 0 <=? e then 1 else 2 ^ (- e) in
      let k := decimal_point 700 num den (-324) in
      let '(ds, decpt) := shortest_digits 17 1 m e k in
      let n := Z.of_nat (length ds) in
      let body :=
        if (decpt <=? -4) || (16 <? decpt) then
          take 1 ds
          ++ (match drop 1 ds with [] => [] | r => "."%char :: r end)
          ++ ["e"%char; if decpt - 1 <? 0 then "-"%char else "+"%char]
          ++ zero_pad 2 (Z.abs (decpt - 1))
        else if decpt <=? 0 then
          ["0"; "."]%char ++ replicate (Z.to_nat (- decpt)) "0"%char ++ ds
        else if n <=? decpt then
          ds ++ replicate (Z.to_nat (decpt - n)) "0"%char ++ ["."; "0"]%char
        else take (Z.to_nat decpt) ds ++ "."%char :: drop (Z.to_nat decpt) ds in
      string_of ((if s then ["-"%char] else []) ++ body)
  end.

(** Days since 1970-01-01 of a civil date, and back. *)
Definition days_from_civil (y m d : Z) : Z :=
  let y' := if m <=? 2 then y - 1 else y in
  let era := y' / 400 in
  let yoe := y' - era * 400 in
  let doy := (153 * (if 2 <? m then m - 3 else m + 9) + 2) / 5 + d - 1 in
  let doe := yoe * 365 + yoe / 4 - yoe / 100 + doy in
  era * 146097 + doe - 719468.

Definition civil_from_days (days : Z) : Z * Z * Z :=
  let z := days + 719468 in
  let era := z / 146097 in
  let doe := z - era * 146097 in
  let yoe := (doe - doe / 1460 + doe / 36524 - doe / 146096) / 365 in
  let doy := doe - (365 * yoe + yoe / 4 - yoe / 100) in
  let mp := (5 * doy + 2) / 153 in
  let d := doy - (153 * mp + 2) / 5 + 1 in
  let m := if mp <? 10 then mp + 3 else mp - 9 in
  ((if m <=? 2 then yoe + era * 400 + 1 else yoe + era * 400), m, d).

Definition days_in_month (y m : Z) : Z :=
  if m =? 2 then
    if ((y mod 4 =? 0) && negb (y mod 100 =? 0)) || (y mod 400 =? 0) then 29 else 28
  else if (m =? 4) || (m =? 6) || (m =? 9) || (m =? 11) then 30 else 31.

Definition ns_per_day : Z := 86400 * 10 ^ 9.

(** A timestamp fits 64 bits, the least value standing for [NaT]. *)
Definition in_bounds (t : Z) : bool := (- 2 ^ 63 <? t) && (t <? 2 ^ 63).

(** [YYYY-MM-DD] *)
Definition parse_iso_date (s : string) : option Z :=
  match list_ascii_of_string s with
  | [y1; y2; y3; y4; "-"; m1; m2; "-"; d1; d2]%char =>
      if forallb is_digit [y1; y2; y3; y4; m1; m2; d1; d2] then
        let y := digits_to_Z [y1; y2; y3; y4] in
        let m := digits_to_Z [m1; m2] in
        let d := digits_to_Z [d1; d2] in
        let t := days_from_civil y m d * ns_per_day in
        if (1 <=? m) && (m <=? 12) && (1 <=? d) && (d <=? days_in_month y m) && in_bounds t
        then Some t else None
      else None
  | _ => None
  end.

Definition parse_date (v : pyvalue) : option Z :=
  match v with
  | PyStr s => parse_iso_date (strip s)
  | PyTimestamp t => Some t
  | PyInt n => if in_bounds n then Some n else None
  | _ => None
  end.

(** [str(t)]: [YYYY-MM-DD HH:MM:SS], then the fraction of a second on six
    or nine digits when there is one. *)
Definition timestamp_repr (t : Z) : string :=
  let '(y, m, d) := civil_from_days (t / ns_per_day) in
  let r := t mod ns_per_day in
  let secs := r / 10 ^ 9 in
  let frac := r mod 10 ^ 9 in
  string_of
    (zero_pad 4 y ++ "-"%char :: zero_pad 2 m ++ "-"%char :: zero_pad 2 d
     ++ " "%char :: zero_pad 2 (secs / 3600) ++ ":"%char :: zero_pad 2 (secs / 60 mod 60)
     ++ ":"%char :: zero_pad 2 (secs mod 60)
     ++ (if frac =? 0 then []
         else if frac mod 1000 =? 0 then "."%char :: zero_pad 6 (frac / 1000)
         else "."%char :: zero_pad 9 frac)).

Definition sequential_sum (xs : list spec_float) : spec_float :=
  fold_left (SFadd prec emax) xs (S754_zero false).

Definition reference_runtime : Runtime := {|
  float_str := float_repr;
  timestamp_str := timestamp_repr;
  to_datetime := fmap parse_date;
  to_datetime_length := length_fmap parse_date;
  series_sum := sequential_sum
|}.

(** ** Example tables *)

(** A table from its column labels and its rows of cells. *)
Definition table (cols : list string) (body : list (list pyvalue)) : DataFrame :=
  mkDataFrame cols (imap (fun i r => (i, list_to_map (zip cols r))) body).

(** Section 8, duplicate handling: three statement rows and two export
    rows, all dated 2024-01-01 for 10.00. *)
Definition statement_dup : DataFrame :=
  table ["Data"; "Valor"] (replicate 3 [PyStr "2024-01-01"; PyStr "10.00"]).

Definition export_dup : DataFrame :=
  table ["Data"; "Valor"] (replicate 2 [PyStr "2024-01-01"; PyStr "10.00"]).

(** A statement with a row whose date does not parse and a row whose value
    does not parse, and an export with one matching row. *)
Definition statement_bad : DataFrame :=
  table ["Data"; "Valor"; "Loja"]
    [[PyStr "2024-01-01"; PyStr "R$ 5,00"; PyStr "a"];
     [PyStr "sem data"; PyStr "7,00"; PyStr "b"];
     [PyStr "2024-01-02"; PyStr "abc"; PyStr "c"];
     [PyStr "2024-01-03"; PyStr "1.234,56"; PyStr "d"]].

Definition export_one : DataFrame :=
  table ["date"; "amount"] [[PyStr "2024-01-01"; PyFloat (Prim2SF 5)]; [PyNone; PyInt 3]].


(** A table with no row. *)
Definition export_none : DataFrame := table ["date"; "amount"] [].

Definition run (A B : DataFrame) (dcf vcf dcm vcm : string) : result MatchResult :=
  @reconcile reference_runtime A B dcf vcf dcm vcm.

Definition outcome (A B : DataFrame) (dcf vcf dcm vcm : string) : MatchResult :=
  @reconcile_frames reference_runtime
    (@annotation reference_runtime A dcf vcf) (@annotation reference_runtime B dcm vcm).

Definition dup_outcome : MatchResult :=
  outcome statement_dup export_dup "Data" "Valor" "Data" "Valor".

Definition bad_outcome : MatchResult :=
  outcome statement_bad export_one "Data" "Valor" "date" "amount".

(** The first row left unmatched in [statement_bad]. *)
Definition bad_left_row : nat * row :=
  default (0%nat, ∅) (head (rows (unmatched_f bad_outcome))).

(** One row dated 2024-01-01 with the given value text. *)
Definition one_row (value : string) : DataFrame :=
  table ["Data"; "Valor"] [[PyStr "2024-01-01"; PyStr value]].

Definition near_outcome : MatchResult :=
  outcome (one_row "10.10") (one_row "10.099999999") "Data" "Valor" "Data" "Valor".

Definition same_outcome : MatchResult :=
  outcome (one_row "10.10") (one_row "10,1") "Data" "Valor" "Data" "Valor".



(** * Properties *)

(** ** Frames and the loop *)

Lemma labels_mark_first row_f B B1 :
  first_candidate row_f B = Some B1 → labels B1 = labels B.
Proof.
  revert B1. induction B as [|b B IH]; intros B1; simpl; [done|].
  destruct (candidate row_f b.2).
  - intros [= <-]. done.
  - destruct (first_candidate row_f B) as [B2|] eqn:E; simpl; [|done].
    intros [= <-]. simpl. f_equal. by apply IH.
Qed.

Lemma at_set_fresh idx c v l :
  idx ∉ labels l → at_set_row idx c v <$> l = l.
Proof.
  induction l as [|r l IH]; [done|].
  intros [Hne Hn]%not_elem_of_cons. rewrite fmap_cons, IH by done.
  unfold at_set_row. by rewrite bool_decide_eq_false_2.
Qed.

(** The first row of the mask of line 73 is the row [first_candidate] marks. *)
Lemma first_candidate_select row_f cs B :
  NoDup (labels B) →
  match rows (select (candidate row_f) (mkDataFrame cs B)) with
  | [] => first_candidate row_f B = None
  | (idx_m, _) :: _ =>
      first_candidate row_f B
      = Some (rows (at_set idx_m "_matched" (PyBool true) (mkDataFrame cs B)))
        ∧ idx_m ∈ labels B
  end.
Proof.
  cbn [rows select at_set columns]. induction B as [|b B IH]; [done|].
  intros [Hb HB]%NoDup_cons. rewrite filter_cons. cbn [first_candidate].
  destruct (candidate row_f b.2) eqn:Ec.
  - rewrite decide_True by done. destruct b as [i r].
    split; [|by left].
    rewrite fmap_cons, at_set_fresh by done.
    unfold at_set_row, mark_row. cbn. by rewrite bool_decide_eq_true_2.
  - rewrite decide_False by done.
    specialize (IH HB).
    destruct (filter _ B) as [|[i r] l] eqn:Ef.
    + by rewrite IH.
    + destruct IH as [-> Hi]. split; [|by right].
      assert (at_set_row i "_matched" (PyBool true) b = b) as Hrow.
      { unfold at_set_row. rewrite bool_decide_eq_false_2; [done|].
        intros Heq. apply Hb. by rewrite Heq. }
      by rewrite fmap_cons, Hrow.
Qed.

Lemma at_set_middle idx c v pre a l :
  NoDup (labels (pre ++ a :: l)) → a.1 = idx →
  at_set_row idx c v <$> (pre ++ a :: l) = pre ++ (a.1, <[c := v]> a.2) :: l.
Proof.
  intros Hnd <-. unfold labels in Hnd. rewrite fmap_app, fmap_cons in Hnd.
  apply NoDup_app in Hnd as (Hnp & Hpre & [Ha _]%NoDup_cons).
  rewrite fmap_app, fmap_cons, !at_set_fresh.
  - unfold at_set_row. by rewrite bool_decide_eq_true_2.
  - done.
  - intros Hin. apply (Hpre a.1); [done|by left].
Qed.

(** The loop of lines 70 to 77 computes [greedy_rows]. *)
Lemma fold_match_step cf cm todo : ∀ pre M,
  NoDup (labels (pre ++ todo)) → NoDup (labels M) →
  fold_left match_step todo (mkDataFrame cf (pre ++ todo), mkDataFrame cm M)
  = (mkDataFrame cf (pre ++ (greedy_rows todo M).1),
     mkDataFrame cm (greedy_rows todo M).2).
Proof.
  induction todo as [|a todo IH]; intros pre M Hf Hm; [done|].
  assert (Hf' : NoDup (labels ((pre ++ [a]) ++ todo))) by by rewrite <-app_assoc.
  destruct a as [idx_f row_f]. cbn [fold_left match_step greedy_rows snd].
  destruct (as_bool (row_f !!! "_matched")) eqn:Eflag.
  - specialize (IH (pre ++ [(idx_f, row_f)]) M Hf' Hm).
    rewrite <-app_assoc in IH. cbn [app] in IH. rewrite IH.
    destruct (greedy_rows todo M) as [A'' B'']. cbn. by rewrite <-app_assoc.
  - pose proof (first_candidate_select row_f cm M Hm) as Hsel.
    destruct (rows (select (candidate row_f) (mkDataFrame cm M))) as [|[idx_m r] l].
    + rewrite Hsel.
      specialize (IH (pre ++ [(idx_f, row_f)]) M Hf' Hm).
      rewrite <-app_assoc in IH. cbn [app] in IH. rewrite IH.
      destruct (greedy_rows todo M) as [A'' B'']. cbn. by rewrite <-app_assoc.
    + destruct Hsel as [Hsel Hin]. unfold at_set in *. cbn [rows columns] in *.
      rewrite Hsel, (at_set_middle _ _ _ pre (idx_f, row_f) todo Hf eq_refl).
      assert (Hm' : NoDup (labels (at_set_row idx_m "_matched" (PyBool true) <$> M))).
      { by rewrite (labels_mark_first _ _ _ Hsel). }
      assert (Hf'' : NoDup (labels ((pre ++ [mark_row (idx_f, row_f)]) ++ todo))).
      { unfold labels in *. rewrite <-app_assoc. rewrite !fmap_app in *. done. }
      specialize (IH (pre ++ [mark_row (idx_f, row_f)]) _ Hf'' Hm').
      rewrite <-app_assoc in IH. cbn [app] in IH. unfold mark_row in IH at 1.
      cbn [fst snd] in *. rewrite IH.
      destruct (greedy_rows todo _) as [A'' B'']. cbn. by rewrite <-app_assoc.
Qed.

(** ** Rows of a valid frame as records *)

Lemma record_of_mark_row r : record_of (mark_row r) = mark (record_of r).
Proof.
  unfold record_of, mark_row, mark. cbn [fst snd index parsed_date parsed_value].
  rewrite lookup_total_insert_eq, !lookup_total_insert_ne by done. done.
Qed.

Lemma valid_row_mark_row r : valid_row r → valid_row (mark_row r).
Proof.
  intros (Hd & Hv & _). unfold valid_row, mark_row. cbn [snd].
  rewrite lookup_total_insert_eq, !lookup_total_insert_ne by done. eauto.
Qed.

Lemma candidate_record_of a b :
  valid_row a → valid_row b →
  candidate a.2 b.2 = negb (matched (record_of b)) && same_key (record_of a) (record_of b).
Proof.
  intros ([ta Hta] & (xa & Hxa & _) & _) ([tb Htb] & (xb & Hxb & _) & [fb Hfb]).
  unfold candidate, same_key, record_of. cbn [matched parsed_date parsed_value].
  rewrite Hta, Hxa, Htb, Hxb, Hfb. cbn. by destruct fb.
Qed.

Lemma first_candidate_record_of a B :
  valid_row a → Forall valid_row B →
  match first_candidate a.2 B with
  | Some B1 =>
      first_unmatched (record_of a) (record_of <$> B) = Some (record_of <$> B1)
      ∧ Forall valid_row B1
  | None => first_unmatched (record_of a) (record_of <$> B) = None
  end.
Proof.
  intros Ha. induction 1 as [|b B Hb HB IH]; [done|].
  cbn [first_candidate]. rewrite fmap_cons. cbn [first_unmatched].
  rewrite <-(candidate_record_of a b) by done.
  destruct (candidate a.2 b.2).
  - rewrite fmap_cons, record_of_mark_row. split; [done|].
    constructor; [by apply valid_row_mark_row|done].
  - destruct (first_candidate a.2 B) as [B1|].
    + destruct IH as [-> HB1]. split; [done|]. by constructor.
    + by rewrite IH.
Qed.

(** [greedy_rows] on valid rows is the specification's [greedy_match]. *)
Lemma greedy_rows_record_of A : ∀ B,
  Forall valid_row A → Forall valid_row B →
  (record_of <$> (greedy_rows A B).1, record_of <$> (greedy_rows A B).2)
  = greedy_match (record_of <$> A) (record_of <$> B)
  ∧ Forall valid_row (greedy_rows A B).1 ∧ Forall valid_row (greedy_rows A B).2.
Proof.
  induction A as [|a A IH]; intros B HA HB; [done|].
  apply Forall_cons in HA as [Ha HA].
  rewrite fmap_cons. cbn [greedy_rows greedy_match].
  change (matched (record_of a)) with (as_bool (a.2 !!! "_matched")).
  destruct (as_bool (a.2 !!! "_matched")).
  - destruct (IH B HA HB) as (<- & H1 & H2).
    destruct (greedy_rows A B) as [A'' B'']. cbn [fst snd] in *.
    rewrite fmap_cons. split; [done|]. split; [by constructor|done].
  - pose proof (first_candidate_record_of a B Ha HB) as Hfc.
    destruct (first_candidate a.2 B) as [B1|].
    + destruct Hfc as [-> HB1]. destruct (IH B1 HA HB1) as (<- & H1 & H2).
      destruct (greedy_rows A B1) as [A'' B'']. cbn [fst snd] in *.
      rewrite fmap_cons, record_of_mark_row. split; [done|]. split; [|done].
      constructor; [by apply valid_row_mark_row|done].
    + rewrite Hfc. destruct (IH B HA HB) as (<- & H1 & H2).
      destruct (greedy_rows A B) as [A'' B'']. cbn [fst snd] in *.
    rewrite fmap_cons. split; [done|]. split; [by constructor|done].
Qed.

(** ** The specification's matching *)

Lemma first_unmatched_Some a B B1 :
  first_unmatched a B = Some B1 →
  ∃ B' b B'', B = B' ++ b :: B'' ∧ B1 = B' ++ mark b :: B''
    ∧ matched b = false ∧ same_key a b = true
    ∧ Forall (fun b' => matched b' = true ∨ same_key a b' = false) B'.
Proof.
  revert B1. induction B as [|b B IH]; intros B1; cbn [first_unmatched]; [done|].
  destruct (negb (matched b) && same_key a b) eqn:E.
  - intros [= <-]. apply andb_true_iff in E as [Hm Hk].
    exists [], b, B. apply negb_true_iff in Hm. by repeat split.
  - destruct (first_unmatched a B) as [B2|]; [|done].
    cbn. intros [= <-]. destruct (IH B2 eq_refl) as (B' & b' & B'' & -> & -> & ? & ? & ?).
    exists (b :: B'), b', B''. repeat split; try done.
    constructor; [|done].
    apply andb_false_iff in E as [E|E]; [left|by right].
    by apply negb_false_iff in E.
Qed.

Lemma first_unmatched_None a B :
  first_unmatched a B = None →
  Forall (fun b => matched b = true ∨ same_key a b = false) B.
Proof.
  induction B as [|b B IH]; cbn [first_unmatched]; [done|].
  destruct (negb (matched b) && same_key a b) eqn:E; [done|].
  destruct (first_unmatched a B); [done|]. intros _.
  constructor; [|by apply IH].
  apply andb_false_iff in E as [E|E]; [left|by right].
  by apply negb_false_iff in E.
Qed.

Lemma evolves_refl b : evolves b b.
Proof. by repeat split. Qed.

Lemma evolves_mark b : evolves b (mark b).
Proof. by repeat split. Qed.

Lemma evolves_trans b1 b2 b3 : evolves b1 b2 → evolves b2 b3 → evolves b1 b3.
Proof.
  intros (? & ? & ? & ?) (? & ? & ? & ?). repeat split; try congruence. auto.
Qed.

Lemma Forall2_evolves_refl B : Forall2 evolves B B.
Proof. induction B; constructor; auto using evolves_refl. Qed.

Lemma Forall2_evolves_trans B1 B2 B3 :
  Forall2 evolves B1 B2 → Forall2 evolves B2 B3 → Forall2 evolves B1 B3.
Proof.
  intros H. revert B3. induction H; inversion 1; subst; constructor;
    eauto using evolves_trans.
Qed.

Lemma first_unmatched_evolves a B B1 :
  first_unmatched a B = Some B1 → Forall2 evolves B B1.
Proof.
  intros (B' & b & B'' & -> & -> & _)%first_unmatched_Some.
  apply Forall2_app; [apply Forall2_evolves_refl|].
  constructor; [apply evolves_mark|apply Forall2_evolves_refl].
Qed.

Lemma greedy_match_evolves A : ∀ B,
  Forall2 evolves A (greedy_match A B).1 ∧ Forall2 evolves B (greedy_match A B).2.
Proof.
  induction A as [|a A IH]; intros B; cbn [greedy_match].
  { split; [constructor|apply Forall2_evolves_refl]. }
  destruct (matched a).
  - destruct (IH B) as [H1 H2]. destruct (greedy_match A B). cbn in *.
    split; [|done]. constructor; [apply evolves_refl|done].
  - destruct (first_unmatched a B) as [B1|] eqn:E.
    + destruct (IH B1) as [H1 H2]. destruct (greedy_match A B1). cbn in *.
      split; [constructor; [apply evolves_mark|done]|].
      eapply Forall2_evolves_trans; [by eapply first_unmatched_evolves|done].
    + destruct (IH B) as [H1 H2]. destruct (greedy_match A B). cbn in *.
      split; [|done]. constructor; [apply evolves_refl|done].
Qed.

Lemma same_key_evolves a b b' : evolves b b' → same_key a b' = same_key a b.
Proof. intros (_ & Hd & Hv & _). unfold same_key. by rewrite Hd, Hv. Qed.

Lemma Forall2_evolves_blocked a B B' :
  Forall2 evolves B B' →
  Forall (fun b => matched b = true ∨ same_key a b = false) B →
  Forall (fun b => matched b = true ∨ same_key a b = false) B'.
Proof.
  induction 1 as [|b b' B B' Hb _ IH]; [done|].
  intros [Hx HB]%Forall_cons. constructor; [|by apply IH].
  destruct Hx as [Hx|Hx].
  - left. by apply Hb.
  - right. by rewrite (same_key_evolves a b b').
Qed.

(** No record left unmatched in [A] has the key of one left unmatched in [B]. *)
Lemma greedy_match_maximal A : ∀ B,
  Forall (fun a => matched a = false) A →
  ∀ a b, a ∈ (greedy_match A B).1 → b ∈ (greedy_match A B).2 →
    matched a = false → matched b = false → same_key a b = false.
Proof.
  induction A as [|a0 A IH]; intros B HA a b; cbn [greedy_match].
  { by intros ?%elem_of_nil. }
  apply Forall_cons in HA as [Ha0 HA]. rewrite Ha0.
  destruct (first_unmatched a0 B) as [B1|] eqn:E.
  - specialize (IH B1 HA a b). destruct (greedy_match A B1) as [A'' B''].
    cbn [fst snd] in *. intros [->|Ha]%elem_of_cons Hb Hma Hmb; [done|]. by apply IH.
  - pose proof (greedy_match_evolves A B) as [_ Hev].
    specialize (IH B HA a b). destruct (greedy_match A B) as [A'' B''].
    cbn [fst snd] in *. intros [->|Ha]%elem_of_cons Hb Hma Hmb; [|by apply IH].
    apply first_unmatched_None in E.
    pose proof (Forall2_evolves_blocked _ _ _ Hev E) as Hbl.
    rewrite Forall_forall in Hbl. destruct (Hbl b Hb); congruence.
Qed.

Lemma count_matched_cons a l :
  count_matched (a :: l) = ((if matched a then 1 else 0) + count_matched l)%nat.
Proof.
  unfold count_matched. rewrite filter_cons.
  destruct (matched a); [by rewrite decide_True|by rewrite decide_False].
Qed.

Lemma count_matched_app l k :
  count_matched (l ++ k) = (count_matched l + count_matched k)%nat.
Proof. unfold count_matched. by rewrite filter_app, length_app. Qed.

Lemma first_unmatched_count a B B1 :
  first_unmatched a B = Some B1 → count_matched B1 = S (count_matched B).
Proof.
  intros (B' & b & B'' & -> & -> & Hb & _)%first_unmatched_Some.
  rewrite !count_matched_app, !count_matched_cons, Hb. cbn. lia.
Qed.

(** Every match raises one flag on each side. *)
Lemma greedy_match_count A : ∀ B,
  Forall (fun a => matched a = false) A →
  (count_matched (greedy_match A B).1 + count_matched B)%nat
  = count_matched (greedy_match A B).2.
Proof.
  induction A as [|a A IH]; intros B HA; cbn [greedy_match]; [done|].
  apply Forall_cons in HA as [Ha HA]. rewrite Ha.
  destruct (first_unmatched a B) as [B1|] eqn:E.
  - specialize (IH B1 HA). apply first_unmatched_count in E.
    destruct (greedy_match A B1) as [A'' B'']. cbn [fst snd] in *.
    rewrite count_matched_cons. cbn. lia.
  - specialize (IH B HA). destruct (greedy_match A B) as [A'' B''].
    cbn [fst snd] in *. rewrite count_matched_cons, Ha. done.
Qed.

(** What the loop leaves alone: anything that does not read [_matched]. *)
Lemma first_candidate_fmap {X} (g : nat * row → X) row_f B B1 :
  (∀ r, g (mark_row r) = g r) →
  first_candidate row_f B = Some B1 → g <$> B1 = g <$> B.
Proof.
  intros Hg. revert B1. induction B as [|b B IH]; intros B1; cbn [first_candidate]; [done|].
  destruct (candidate row_f b.2).
  - intros [= <-]. by rewrite !fmap_cons, Hg.
  - destruct (first_candidate row_f B) as [B2|]; [|done].
    cbn. intros [= <-]. rewrite !fmap_cons. f_equal. by apply IH.
Qed.

Lemma greedy_rows_fmap {X} (g : nat * row → X) A : ∀ B,
  (∀ r, g (mark_row r) = g r) →
  g <$> (greedy_rows A B).1 = g <$> A ∧ g <$> (greedy_rows A B).2 = g <$> B.
Proof.
  induction A as [|a A IH]; intros B Hg; cbn [greedy_rows]; [done|].
  destruct (as_bool (a.2 !!! "_matched")).
  - destruct (IH B Hg) as [H1 H2]. destruct (greedy_rows A B). cbn [fst snd] in *.
    by rewrite !fmap_cons, H1.
  - destruct (first_candidate a.2 B) as [B1|] eqn:E.
    + destruct (IH B1 Hg) as [H1 H2]. destruct (greedy_rows A B1). cbn [fst snd] in *.
      rewrite !fmap_cons, H1, Hg, H2. split; [done|]. by eapply first_candidate_fmap.
    + destruct (IH B Hg) as [H1 H2]. destruct (greedy_rows A B). cbn [fst snd] in *.
      by rewrite !fmap_cons, H1.
Qed.

(** ** Annotated frames *)

Lemma Forall_zip_with_l {X Y W} (g : X → Y → W) (Q : X → Prop) (P : W → Prop) l k :
  (∀ x y, Q x → P (g x y)) → Forall Q l → Forall P (zip_with g l k).
Proof.
  intros Hg Hl. revert k. induction Hl as [|x l Hx _ IH]; intros [|y k]; cbn; auto.
Qed.

Lemma labels_zip_with {Y} (g : nat * row → Y → row) l k :
  length k = length l →
  labels (zip_with (fun r v => (r.1, g r v)) l k) = labels l.
Proof.
  revert k. induction l as [|r l IH]; intros [|y k]; cbn; try done.
  intros [= Hlen]. unfold labels in *. by rewrite IH.
Qed.

Lemma labels_reset_index df : labels (rows (reset_index df)) = seq 0 (length (rows df)).
Proof.
  unfold labels, reset_index. cbn [rows]. rewrite fmap_imap.
  rewrite (imap_ext _ (fun j _ => j)) by done.
  by rewrite (imap_seq_0 (rows df) (fun i => i)), list_fmap_id.
Qed.

Lemma length_cells df c : length (cells df c) = length (rows df).
Proof. apply length_fmap. Qed.

Lemma getitem_Ok df c col : getitem df c = Ok col → col = cells df c.
Proof. unfold getitem. case_bool_decide; [|done]. by intros [= <-]. Qed.

Section annotate.
Context `{Runtime}.

Lemma length_with_date col df :
  length col = length (rows df) → length (rows (with_date col df)) = length (rows df).
Proof.
  intros Hlen. unfold with_date, setitem. cbn [rows].
  rewrite length_zip_with_l_eq; [done|].
  by rewrite length_fmap, to_datetime_length.
Qed.

Lemma labels_with_date col df :
  length col = length (rows df) → labels (rows (with_date col df)) = labels (rows df).
Proof.
  intros Hlen. unfold with_date, setitem. cbn [rows].
  apply (labels_zip_with (fun r v => <["_date" := v]> r.2)).
  by rewrite length_fmap, to_datetime_length.
Qed.

Lemma labels_with_value col df :
  length col = length (rows df) → labels (rows (with_value col df)) = labels (rows df).
Proof.
  intros Hlen. unfold with_value, setitem. cbn [rows].
  apply (labels_zip_with (fun r v => <["_value" := v]> r.2)).
  by rewrite length_fmap.
Qed.

Lemma with_date_rows col df :
  Forall (fun r => ∃ d, r.2 !!! "_date" = date_cell d) (rows (with_date col df)).
Proof.
  unfold with_date, setitem. cbn [rows]. rewrite zip_with_fmap_r.
  apply (Forall_zip_with_l _ (fun _ => True)); [|by apply Forall_true].
  intros r d _. cbn. rewrite lookup_total_insert_eq. eauto.
Qed.

Lemma with_value_rows col df :
  Forall (fun r => ∃ d, r.2 !!! "_date" = date_cell d) (rows df) →
  Forall annotated_row (rows (with_value col df)).
Proof.
  intros Hd. unfold with_value, setitem. cbn [rows]. rewrite zip_with_fmap_r.
  eapply Forall_zip_with_l; [|exact Hd].
  intros r c [d Hr]. split; cbn.
  - rewrite lookup_total_insert_ne by done. eauto.
  - rewrite lookup_total_insert_eq. eauto.
Qed.

Lemma labels_annotation df date_col value_col :
  labels (rows (annotation df date_col value_col)) = seq 0 (length (rows df)).
Proof.
  unfold annotation.
  rewrite labels_with_value, labels_with_date by (by rewrite ?length_cells).
  apply labels_reset_index.
Qed.

(** The frame of lines 60 to 65 is annotated and keeps the table's order. *)
Lemma annotation_annotated df date_col value_col :
  annotated (annotation df date_col value_col).
Proof.
  split.
  - rewrite labels_annotation. apply NoDup_seq.
  - apply with_value_rows, with_date_rows.
Qed.

(** [reconcile] annotates the two tables and runs the engine on them. *)
Lemma reconcile_Ok df_fatura df_mobills dcf vcf dcm vcm res :
  reconcile df_fatura df_mobills dcf vcf dcm vcm = Ok res →
  res = reconcile_frames (annotation df_fatura dcf vcf) (annotation df_mobills dcm vcm).
Proof.
  unfold reconcile, annotation, bind.
  destruct (getitem (reset_index (copy df_fatura)) dcf) as [c1|] eqn:E1; [|done].
  destruct (getitem (reset_index (copy df_mobills)) dcm) as [c2|] eqn:E2; [|done].
  destruct (getitem (with_date c1 _) vcf) as [c3|] eqn:E3; [|done].
  destruct (getitem (with_date c2 _) vcm) as [c4|] eqn:E4; [|done].
  apply getitem_Ok in E1, E2, E3, E4. subst. by intros [= <-].
Qed.

End annotate.

(** ** The engine on annotated frames *)

Lemma both_present_normalized r :
  annotated_row r →
  (both_present r ∧ normalized r = Some (record_of (flag_down r)) ∧ valid_row (flag_down r))
  ∨ (¬ both_present r ∧ normalized r = None).
Proof.
  intros [[d Hd] [v Hv]].
  unfold both_present, normalized, row_date, row_value, record_of, valid_row, flag_down.
  cbn [forallb fst snd]. rewrite lookup_total_insert_eq, !lookup_total_insert_ne by done.
  rewrite Hd, Hv.
  destruct d as [t|]; cbn; [|by right].
  destruct v as [x|]; cbn; [|by right].
  destruct (is_nan x) eqn:Ex; cbn; [by right|].
  left. repeat split; eauto.
Qed.

Lemma valid_rows_valid f : Forall annotated_row (rows f) → Forall valid_row (valid_rows f).
Proof.
  unfold valid_rows. induction 1 as [|r l Hr _ IH]; [constructor|].
  rewrite filter_cons.
  destruct (both_present_normalized r Hr) as [(Hk & _ & Hv)|[Hk _]].
  - rewrite decide_True by done. rewrite fmap_cons. by constructor.
  - by rewrite decide_False.
Qed.

Lemma valid_rows_records f :
  Forall annotated_row (rows f) → record_of <$> valid_rows f = valid_records f.
Proof.
  unfold valid_rows, valid_records. induction 1 as [|r l Hr _ IH]; [done|].
  rewrite filter_cons. cbn [omap list_omap].
  destruct (both_present_normalized r Hr) as [(Hk & -> & _)|[Hk ->]].
  - rewrite decide_True by done. rewrite !fmap_cons. f_equal. exact IH.
  - rewrite decide_False by done. exact IH.
Qed.

Lemma valid_rows_NoDup f : NoDup (labels (rows f)) → NoDup (labels (valid_rows f)).
Proof.
  unfold valid_rows, labels. rewrite <-list_fmap_compose.
  intros Hnd. eapply sublist_NoDup; [exact Hnd|].
  change (fst ∘ flag_down) with (@fst nat row).
  apply fmap_sublist, sublist_filter.
Qed.

Lemma valid_rows_flags f : Forall (fun r => as_bool (r.2 !!! "_matched") = false) (valid_rows f).
Proof.
  unfold valid_rows. apply Forall_fmap, Forall_forall. intros r _.
  cbn. by rewrite lookup_total_insert_eq.
Qed.

Lemma valid_records_flags f : Forall (fun a => matched a = false) (valid_records f).
Proof.
  unfold valid_records. apply Forall_forall. intros a (r & Hr & Ha)%list_elem_of_omap.
  unfold normalized in Ha. destruct (row_date r.2); [|done].
  destruct (row_value r.2); [|done]. cbn in Ha. by injection Ha as <-.
Qed.

Lemma record_of_filter l :
  record_of <$> filter flag_is_down l = unmatched (record_of <$> l).
Proof.
  unfold unmatched. induction l as [|r l IH]; [done|].
  rewrite fmap_cons, !filter_cons, <-IH.
  destruct (decide (flag_is_down r)) as [Hd|Hd].
  - rewrite decide_True; [done|]. by apply negb_true_iff in Hd.
  - rewrite decide_False; [done|]. intros Hm. apply Hd. by apply negb_true_iff.
Qed.

Lemma rows_valid_frame f : rows (valid_frame f) = valid_rows f.
Proof. done. Qed.

Lemma matching_loop_valid f m :
  NoDup (labels (rows f)) → NoDup (labels (rows m)) →
  matching_loop (valid_frame f) (valid_frame m)
  = (mkDataFrame (columns (valid_frame f)) (greedy_rows (valid_rows f) (valid_rows m)).1,
     mkDataFrame (columns (valid_frame m)) (greedy_rows (valid_rows f) (valid_rows m)).2).
Proof.
  intros Hf Hm. unfold matching_loop, iterrows. rewrite rows_valid_frame.
  pose proof (fold_match_step (columns (valid_frame f)) (columns (valid_frame m))
    (valid_rows f) [] (valid_rows m)) as Hloop.
  cbn [app] in Hloop. rewrite <-Hloop by (by apply valid_rows_NoDup). done.
Qed.

Section engine.
Context `{Runtime}.

(** Lines 66 to 83 in terms of [greedy_rows]. *)
Lemma reconcile_frames_rows f m :
  NoDup (labels (rows f)) → NoDup (labels (rows m)) →
  let g := greedy_rows (valid_rows f) (valid_rows m) in
  rows (unmatched_f (reconcile_frames f m)) = filter flag_is_down g.1
  ∧ rows (unmatched_m (reconcile_frames f m)) = filter flag_is_down g.2
  ∧ total_f (reconcile_frames f m)
    = series_sum (float_cells ((fun r => r.2 !!! "_value") <$> g.1))
  ∧ total_m (reconcile_frames f m)
    = series_sum (float_cells ((fun r => r.2 !!! "_value") <$> g.2))
  ∧ difference (reconcile_frames f m)
    = SFsub prec emax (total_f (reconcile_frames f m)) (total_m (reconcile_frames f m)).
Proof.
  intros Hf Hm. unfold reconcile_frames.
  change (setitem_scalar _ _ (copy (dropna _ f))) with (valid_frame f).
  change (setitem_scalar _ _ (copy (dropna _ m))) with (valid_frame m).
  rewrite matching_loop_valid by done. done.
Qed.

(** The engine's outcome on annotated frames, as records. *)
Lemma reconcile_frames_records f m :
  annotated f → annotated m →
  let g := greedy_match (valid_records f) (valid_records m) in
  record_of <$> rows (unmatched_f (reconcile_frames f m)) = unmatched g.1
  ∧ record_of <$> rows (unmatched_m (reconcile_frames f m)) = unmatched g.2
  ∧ Forall valid_row (rows (unmatched_f (reconcile_frames f m)))
  ∧ Forall valid_row (rows (unmatched_m (reconcile_frames f m))).
Proof.
  intros [Hf Haf] [Hm Ham]. cbn zeta.
  destruct (reconcile_frames_rows f m Hf Hm) as (-> & -> & _).
  destruct (greedy_rows_record_of (valid_rows f) (valid_rows m)) as (Hg & H1 & H2);
    [by apply valid_rows_valid..|].
  rewrite !valid_rows_records in Hg by done.
  rewrite !record_of_filter, <-Hg. cbn [fst snd].
  repeat split; try done.
  - apply Forall_forall. intros r [_ Hr]%list_elem_of_filter.
    rewrite Forall_forall in H1. by apply H1.
  - apply Forall_forall. intros r [_ Hr]%list_elem_of_filter.
    rewrite Forall_forall in H2. by apply H2.
Qed.

End engine.

(** ** Floats, keys and labels *)

Lemma SFeqb_refl x : is_nan x = false → SFeqb x x = true.
Proof.
  destruct x as [s|s| |s m e]; cbn; try done; try by destruct s.
  intros _. unfold SFeqb, SFcompare.
  destruct s; rewrite Z.compare_refl, Pos.compare_cont_refl; done.
Qed.

Lemma strip_derived_insert c v r :
  c ∈ ["_date"; "_value"; "_matched"] → strip_derived (r.1, <[c := v]> r.2) = strip_derived r.
Proof.
  intros Hc. unfold strip_derived. cbn [fst snd]. f_equal.
  apply map_eq. intros k. rewrite !lookup_delete. repeat case_decide; try done.
  rewrite lookup_insert_ne; [done|].
  intros ->. rewrite !elem_of_cons, elem_of_nil in Hc.
  destruct Hc as [|[|[|[]]]]; congruence.
Qed.

Lemma fmap_zip_with_invariant {X Y W} (g : X → W) (h : X → Y → X) l k :
  (∀ x y, g (h x y) = g x) → length k = length l → g <$> zip_with h l k = g <$> l.
Proof.
  intros Hg. revert k. induction l as [|x l IH]; intros [|y k]; cbn; try done.
  intros [= Hlen]. by rewrite Hg, IH.
Qed.

Lemma float_cells_valid l :
  Forall valid_row l →
  float_cells ((fun r => r.2 !!! "_value") <$> l) = parsed_value <$> (record_of <$> l).
Proof.
  induction 1 as [|r l Hr _ IH]; [done|].
  rewrite !fmap_cons. cbn [float_cells omap list_omap]. fold (float_cells ((fun r => r.2 !!! "_value") <$> l)).
  destruct Hr as (_ & (x & Hx & Hn) & _).
  unfold record_of at 1. cbn [parsed_value]. rewrite Hx, Hn. by rewrite IH.
Qed.

Lemma unique_label (l : list (nat * row)) i r r' :
  NoDup (labels l) → (i, r) ∈ l → (i, r') ∈ l → r = r'.
Proof.
  induction l as [|x l IH]; [by intros _ ?%elem_of_nil|].
  unfold labels. rewrite fmap_cons. intros [Hx Hl]%NoDup_cons.
  intros [E1|H1]%elem_of_cons [E2|H2]%elem_of_cons.
  - congruence.
  - subst x. exfalso. apply Hx. by apply (list_elem_of_fmap_2 fst _ (i, r')).
  - subst x. exfalso. apply Hx. by apply (list_elem_of_fmap_2 fst _ (i, r)).
  - by apply IH.
Qed.

Lemma Forall2_evolves_index A A' : Forall2 evolves A A' → index <$> A' = index <$> A.
Proof.
  induction 1 as [|a a' A A' (Hi & _) _ IH]; [done|]. by rewrite !fmap_cons, Hi, IH.
Qed.

Lemma index_record_of l : index <$> (record_of <$> l) = labels l.
Proof. unfold labels. by rewrite <-list_fmap_compose. Qed.

(** The matching reads dates, values and flags, never index labels. *)
Lemma first_unmatched_keys a a' B : ∀ B',
  key_of a = key_of a' → key_of <$> B = key_of <$> B' →
  match first_unmatched a B, first_unmatched a' B' with
  | Some B1, Some B1' => key_of <$> B1 = key_of <$> B1'
  | None, None => True
  | _, _ => False
  end.
Proof.
  intros B' Ha. revert B'. induction B as [|b B IH]; intros [|b' B']; try done.
  rewrite !fmap_cons. intros [= Hd Hv Hm HB]. cbn [first_unmatched].
  assert (same_key a b = same_key a' b') as ->.
  { unfold same_key. injection Ha as -> -> _. by rewrite Hd, Hv. }
  rewrite Hm. destruct (negb (matched b') && same_key a' b').
  - rewrite !fmap_cons. unfold key_of at 1 3. cbn. by rewrite Hd, Hv, HB.
  - specialize (IH B' HB).
    destruct (first_unmatched a B), (first_unmatched a' B'); try done.
    cbn [fmap option_fmap option_map].
    rewrite !fmap_cons, IH. unfold key_of at 1 3. by rewrite Hd, Hv, Hm.
Qed.

Lemma greedy_match_keys A : ∀ A' B B',
  key_of <$> A = key_of <$> A' → key_of <$> B = key_of <$> B' →
  key_of <$> (greedy_match A B).1 = key_of <$> (greedy_match A' B').1
  ∧ key_of <$> (greedy_match A B).2 = key_of <$> (greedy_match A' B').2.
Proof.
  induction A as [|a A IH]; intros [|a' A'] B B'; try done.
  rewrite !fmap_cons. intros [= Hd Hv Hm HA] HB. cbn [greedy_match].
  assert (Ha : key_of a = key_of a') by (unfold key_of; by rewrite Hd, Hv, Hm).
  rewrite Hm. destruct (matched a').
  - destruct (IH A' B B' HA HB) as [H1 H2].
    destruct (greedy_match A B), (greedy_match A' B'). cbn [fst snd] in *.
    by rewrite !fmap_cons, Ha, H1.
  - pose proof (first_unmatched_keys a a' B B' Ha HB) as Hfu.
    destruct (first_unmatched a B) as [B1|], (first_unmatched a' B') as [B1'|]; try done.
    + destruct (IH A' B1 B1' HA Hfu) as [H1 H2].
      destruct (greedy_match A B1), (greedy_match A' B1'). cbn [fst snd] in *.
      rewrite !fmap_cons, H1, H2. unfold key_of at 1 3. cbn. by rewrite Hd, Hv.
    + destruct (IH A' B B' HA HB) as [H1 H2].
      destruct (greedy_match A B), (greedy_match A' B'). cbn [fst snd] in *.
      by rewrite !fmap_cons, Ha, H1.
Qed.

Lemma unmatched_keys l l' :
  key_of <$> l = key_of <$> l' → key_of <$> unmatched l = key_of <$> unmatched l'.
Proof.
  unfold unmatched. revert l'. induction l as [|a l IH]; intros [|a' l']; try done.
  rewrite !fmap_cons. intros [= Hd Hv Hm Hl]. rewrite !filter_cons, Hm.
  destruct (decide (matched a' = false)).
  - rewrite !fmap_cons. unfold key_of at 1 3. rewrite Hd, Hv, Hm. f_equal. by apply IH.
  - by apply IH.
Qed.

(** Three records and two, all with one key: the third is left over. *)
Lemma greedy_match_three_two a1 a2 a3 b1 b2 t x :
  Forall (fun a => parsed_date a = t ∧ parsed_value a = x) [a1; a2; a3; b1; b2] →
  Forall (fun a => matched a = false) [a1; a2; a3] →
  Forall (fun a => matched a = false) [b1; b2] →
  is_nan x = false →
  unmatched (greedy_match [a1; a2; a3] [b1; b2]).1 = [a3]
  ∧ unmatched (greedy_match [a1; a2; a3] [b1; b2]).2 = [].
Proof.
  intros Hall HA HB Hx.
  assert (Hk : ∀ a b, parsed_date a = t → parsed_value a = x →
                      parsed_date b = t → parsed_value b = x → same_key a b = true).
  { intros a b Hd Hv Hd' Hv'. unfold same_key.
    rewrite Hd, Hv, Hd', Hv', Z.eqb_refl. by apply SFeqb_refl. }
  apply Forall_cons in Hall as [(Hd1 & Hv1) Hall].
  apply Forall_cons in Hall as [(Hd2 & Hv2) Hall].
  apply Forall_cons in Hall as [(Hd3 & Hv3) Hall].
  apply Forall_cons in Hall as [(Hd4 & Hv4) Hall].
  apply Forall_cons in Hall as [(Hd5 & Hv5) _].
  apply Forall_cons in HA as [Hm1 HA]. apply Forall_cons in HA as [Hm2 HA].
  apply Forall_cons in HA as [Hm3 _].
  apply Forall_cons in HB as [Hm4 HB]. apply Forall_cons in HB as [Hm5 _].
  cbn [greedy_match first_unmatched].
  rewrite Hm1, Hm4, (Hk a1 b1) by done.
  cbn [negb andb greedy_match first_unmatched matched mark].
  rewrite Hm2, Hm5, (Hk a2 b2) by done.
  cbn [negb andb greedy_match first_unmatched matched mark fmap option_fmap option_map].
  rewrite Hm3. cbn [fst snd]. unfold unmatched.
  rewrite !filter_cons, filter_nil. cbn [matched mark].
  rewrite Hm3. split; reflexivity.
Qed.

Lemma SFeqb_true x y :
  SFeqb x y = true →
  (∃ s s', x = S754_zero s ∧ y = S754_zero s') ∨ (x = y ∧ is_nan x = false).
Proof.
  unfold SFeqb, SFcompare.
  destruct x as [s|s| |s m e], y as [s'|s'| |s' m' e']; try done;
    try (by destruct s); try (by destruct s').
  - eauto.
  - destruct s, s'; try done; by right.
  - destruct s, s'; try done.
    + destruct (Z.compare_spec e e') as [->| |]; try done.
      rewrite Pos.compare_cont_spec. cbn [Pos.switch_Eq].
      destruct (Pos.compare_spec m m') as [->| |]; try done. by right.
    + destruct (Z.compare_spec e e') as [->| |]; try done.
      rewrite Pos.compare_cont_spec. cbn [Pos.switch_Eq].
      destruct (Pos.compare_spec m m') as [->| |]; try done. by right.
Qed.

Lemma SFeqb_sym x y : SFeqb x y = true → SFeqb y x = true.
Proof.
  intros [(s & s' & -> & ->)|[<- Hn]]%SFeqb_true; [done|]. by apply SFeqb_refl.
Qed.

Lemma length_unmatched l : length l = (count_matched l + length (unmatched l))%nat.
Proof.
  unfold count_matched, unmatched. induction l as [|a l IH]; [done|].
  rewrite !filter_cons. destruct (matched a) eqn:E.
  - rewrite decide_True, decide_False by done. cbn. lia.
  - rewrite decide_False, decide_True by done. cbn. lia.
Qed.

Lemma count_matched_flags_down l :
  Forall (fun a => matched a = false) l → count_matched l = 0%nat.
Proof.
  induction 1 as [|a l Ha _ IH]; [done|]. by rewrite count_matched_cons, Ha, IH.
Qed.

Lemma valid_records_not_nan f a : a ∈ valid_records f → is_nan (parsed_value a) = false.
Proof.
  unfold valid_records. intros (r & _ & Ha)%list_elem_of_omap.
  unfold normalized, row_value in Ha. destruct (row_date r.2); [|done]. cbn in Ha.
  destruct (r.2 !!! "_value"); try done. destruct (is_nan x) eqn:E; [done|].
  cbn in Ha. by injection Ha as <-.
Qed.

Lemma valid_records_elem f a :
  a ∈ valid_records f →
  ∃ r, (index a, r) ∈ rows f ∧ row_date r = Some (parsed_date a)
       ∧ row_value r = Some (parsed_value a).
Proof.
  unfold valid_records. intros ([i r] & Hr & Ha)%list_elem_of_omap.
  unfold normalized in Ha. cbn [fst snd] in Ha.
  destruct (row_date r) as [t|] eqn:Et; [|done].
  destruct (row_value r) as [x|] eqn:Ex; [|done].
  cbn in Ha. injection Ha as <-. cbn. eauto.
Qed.

Section claims_helpers.
Context `{Runtime}.

Lemma strip_derived_annotation df date_col value_col :
  strip_derived <$> rows (annotation df date_col value_col)
  = strip_derived <$> rows (reset_index df).
Proof.
  unfold annotation, with_value, with_date, setitem, copy. cbn [rows].
  rewrite fmap_zip_with_invariant.
  - rewrite fmap_zip_with_invariant; [done| |].
    + intros r v. apply strip_derived_insert. by left.
    + by rewrite length_fmap, to_datetime_length, length_cells.
  - intros r v. apply strip_derived_insert. right. by left.
  - rewrite length_fmap. unfold cells at 1. cbn [rows].
    rewrite length_fmap. done.
Qed.

(** What [reconcile] returns, as records. *)
Lemma reconcile_records A B dcf vcf dcm vcm res :
  reconcile A B dcf vcf dcm vcm = Ok res →
  let g := greedy_match (valid A dcf vcf) (valid B dcm vcm) in
  record_of <$> rows (unmatched_f res) = unmatched g.1
  ∧ record_of <$> rows (unmatched_m res) = unmatched g.2
  ∧ Forall valid_row (rows (unmatched_f res))
  ∧ Forall valid_row (rows (unmatched_m res)).
Proof.
  intros ->%reconcile_Ok. apply reconcile_frames_records; apply annotation_annotated.
Qed.

(** What [reconcile] returns, as rows and sums. *)
Lemma reconcile_rows A B dcf vcf dcm vcm res :
  reconcile A B dcf vcf dcm vcm = Ok res →
  let f := annotation A dcf vcf in
  let m := annotation B dcm vcm in
  sublist (strip_derived <$> rows (unmatched_f res)) (strip_derived <$> rows f)
  ∧ sublist (strip_derived <$> rows (unmatched_m res)) (strip_derived <$> rows m)
  ∧ total_f res = series_sum (parsed_value <$> valid_records f)
  ∧ total_m res = series_sum (parsed_value <$> valid_records m)
  ∧ difference res = SFsub prec emax (total_f res) (total_m res).
Proof.
  intros ->%reconcile_Ok. cbn zeta.
  set (f := annotation A dcf vcf). set (m := annotation B dcm vcm).
  destruct (annotation_annotated A dcf vcf) as [Hf Haf].
  destruct (annotation_annotated B dcm vcm) as [Hm Ham]. fold f in Hf, Haf. fold m in Hm, Ham.
  destruct (reconcile_frames_rows f m Hf Hm) as (-> & -> & -> & -> & ->).
  pose proof (valid_rows_valid f Haf) as Hvf. pose proof (valid_rows_valid m Ham) as Hvm.
  assert (Hstrip : ∀ r, strip_derived (mark_row r) = strip_derived r).
  { intros r. apply strip_derived_insert. right. right. by left. }
  assert (Hval : ∀ r, (mark_row r).2 !!! "_value" = r.2 !!! "_value").
  { intros r. unfold mark_row. cbn. by rewrite lookup_total_insert_ne. }
  destruct (greedy_rows_fmap strip_derived (valid_rows f) (valid_rows m) Hstrip) as [S1 S2].
  destruct (greedy_rows_fmap (fun r => r.2 !!! "_value") (valid_rows f) (valid_rows m) Hval)
    as [V1 V2].
  assert (Hsub : ∀ g, sublist (strip_derived <$> valid_rows g) (strip_derived <$> rows g)).
  { intros g. unfold valid_rows. rewrite <-list_fmap_compose.
    rewrite (list_fmap_ext (strip_derived ∘ flag_down) strip_derived).
    - apply fmap_sublist, sublist_filter.
    - intros i r _. apply strip_derived_insert. right. right. by left. }
  repeat split.
  - etrans; [|apply Hsub]. rewrite <-S1. apply fmap_sublist, sublist_filter.
  - etrans; [|apply Hsub]. rewrite <-S2. apply fmap_sublist, sublist_filter.
  - by rewrite V1, float_cells_valid, valid_rows_records.
  - by rewrite V2, float_cells_valid, valid_rows_records.
Qed.

End claims_helpers.

(** ** The claims on the engine *)

(** C2: [reconcile] matches greedily, in order and one to one. Its unmatched
    rows are the records the matching of section 4.2 ([greedy_match]: each
    unmatched record of [validA], in the table's order, takes the first
    unmatched record of [validB] with equal date and value, and both are
    marked) leaves unmatched.  Hence with three records in [validA] and two
    in [validB], all of one date and value, the third record of A is the
    only one left and no record of B is. *)
Theorem reconcile_greedy `{Runtime} A B dcf vcf dcm vcm res :
  reconcile A B dcf vcf dcm vcm = Ok res →
  let g := greedy_match (valid A dcf vcf) (valid B dcm vcm) in
  (record_of <$> rows (unmatched_f res) = unmatched g.1
   ∧ record_of <$> rows (unmatched_m res) = unmatched g.2)
  ∧ ∀ a1 a2 a3 b1 b2 t x,
      valid A dcf vcf = [a1; a2; a3] → valid B dcm vcm = [b1; b2] →
      Forall (fun a => parsed_date a = t ∧ parsed_value a = x) [a1; a2; a3; b1; b2] →
      record_of <$> rows (unmatched_f res) = [a3] ∧ rows (unmatched_m res) = [].
Proof.
  intros Hres. destruct (reconcile_records _ _ _ _ _ _ _ Hres) as (H1 & H2 & _).
  cbn zeta. split; [done|].
  intros a1 a2 a3 b1 b2 t x HA HB Hall. rewrite H1. rewrite HA, HB in *.
  assert (Hx : is_nan x = false).
  { apply Forall_cons in Hall as [[_ <-] _].
    apply (valid_records_not_nan (annotation A dcf vcf)).
    fold (valid A dcf vcf). rewrite HA. by left. }
  assert (HfA : Forall (fun a => matched a = false) [a1; a2; a3]).
  { rewrite <-HA. apply valid_records_flags. }
  assert (HfB : Forall (fun a => matched a = false) [b1; b2]).
  { rewrite <-HB. apply valid_records_flags. }
  destruct (greedy_match_three_two a1 a2 a3 b1 b2 t x) as [-> E2]; [done..|].
  split; [done|]. rewrite E2 in H2. by apply fmap_nil_inv in H2.
Qed.

Lemma reconcile_greedy_witness :
  run statement_dup export_dup "Data" "Valor" "Data" "Valor" = Ok dup_outcome
  ∧ labels (rows (unmatched_f dup_outcome)) = [2%nat]
  ∧ rows (unmatched_m dup_outcome) = [].
Proof.
  assert (Hrun : run statement_dup export_dup "Data" "Valor" "Data" "Valor" = Ok dup_outcome).
  { vm_compute. reflexivity. }
  split; [exact Hrun|].
  destruct (reconcile_greedy (H := reference_runtime) _ _ _ _ _ _ _ Hrun) as [_ Hdup].
  pose (t := 1704067200000000000).
  pose (x := S754_finite false 5629499534213120 (-49)).
  destruct (Hdup (mkRecord 0 t x false) (mkRecord 1 t x false) (mkRecord 2 t x false)
                 (mkRecord 0 t x false) (mkRecord 1 t x false) t x) as [HA HB].
  - vm_compute. reflexivity.
  - vm_compute. reflexivity.
  - repeat constructor.
  - split; [|exact HB].
    rewrite <-index_record_of, HA. reflexivity.
Defined.

(** C10: the matching is maximal across the two sides. No row of
    [unmatchedA] has the date and the value ([==] on floats, either way
    round) of a row of [unmatchedB]; and as many records of [validA] are
    matched as records of [validB]. *)
Theorem reconcile_maximal `{Runtime} A B dcf vcf dcm vcm res :
  reconcile A B dcf vcf dcm vcm = Ok res →
  (∀ a b, a ∈ record_of <$> rows (unmatched_f res) →
          b ∈ record_of <$> rows (unmatched_m res) →
          parsed_date a = parsed_date b →
          SFeqb (parsed_value b) (parsed_value a) = false
          ∧ SFeqb (parsed_value a) (parsed_value b) = false)
  ∧ (length (rows (unmatched_f res)) ≤ length (valid A dcf vcf))%nat
  ∧ (length (rows (unmatched_m res)) ≤ length (valid B dcm vcm))%nat
  ∧ (length (valid A dcf vcf) - length (rows (unmatched_f res))
     = length (valid B dcm vcm) - length (rows (unmatched_m res)))%nat.
Proof.
  intros Hres. destruct (reconcile_records _ _ _ _ _ _ _ Hres) as (H1 & H2 & _).
  cbn zeta in *. set (g := greedy_match (valid A dcf vcf) (valid B dcm vcm)) in *.
  pose proof (valid_records_flags (annotation A dcf vcf)) as HfA.
  pose proof (valid_records_flags (annotation B dcm vcm)) as HfB.
  fold (valid A dcf vcf) in HfA. fold (valid B dcm vcm) in HfB.
  split.
  - intros a b Ha Hb Hd. rewrite H1 in Ha. rewrite H2 in Hb.
    apply list_elem_of_filter in Ha as [Hma Ha], Hb as [Hmb Hb].
    pose proof (greedy_match_maximal _ _ HfA a b Ha Hb Hma Hmb) as Hk.
    unfold same_key in Hk. rewrite Hd, Z.eqb_refl in Hk. cbn in Hk.
    split; [done|].
    destruct (SFeqb (parsed_value a) (parsed_value b)) eqn:E; [|done].
    apply SFeqb_sym in E. congruence.
  - pose proof (greedy_match_evolves (valid A dcf vcf) (valid B dcm vcm)) as [E1 E2].
    apply Forall2_length in E1, E2. fold g in E1, E2.
    pose proof (greedy_match_count _ (valid B dcm vcm) HfA) as Hc. fold g in Hc.
    rewrite (count_matched_flags_down _ HfB) in Hc.
    pose proof (length_unmatched g.1) as L1. pose proof (length_unmatched g.2) as L2.
    rewrite <-H1, length_fmap in L1. rewrite <-H2, length_fmap in L2. lia.
Qed.

Lemma reconcile_maximal_witness :
  run statement_dup export_dup "Data" "Valor" "Data" "Valor" = Ok dup_outcome
  ∧ (length (@valid reference_runtime statement_dup "Data" "Valor")
       - length (rows (unmatched_f dup_outcome))
     = length (@valid reference_runtime export_dup "Data" "Valor")
       - length (rows (unmatched_m dup_outcome)))%nat.
Proof.
  assert (Hrun : run statement_dup export_dup "Data" "Valor" "Data" "Valor" = Ok dup_outcome).
  { vm_compute. reflexivity. }
  split; [exact Hrun|].
  exact (proj2 (proj2 (proj2 (reconcile_maximal (H := reference_runtime) _ _ _ _ _ _ _ Hrun)))).
Defined.

(** C9: the unmatched rows come in the order of their table. Without the
    three columns the engine writes, the rows of [unmatchedA] are a
    subsequence of the rows of A as labelled [0, 1, ...] from the top, and
    likewise for B; so their labels increase. *)
Theorem reconcile_keeps_order `{Runtime} A B dcf vcf dcm vcm res :
  reconcile A B dcf vcf dcm vcm = Ok res →
  sublist (strip_derived <$> rows (unmatched_f res)) (strip_derived <$> rows (reset_index A))
  ∧ sublist (strip_derived <$> rows (unmatched_m res)) (strip_derived <$> rows (reset_index B))
  ∧ sublist (labels (rows (unmatched_f res))) (seq 0 (length (rows A)))
  ∧ sublist (labels (rows (unmatched_m res))) (seq 0 (length (rows B))).
Proof.
  intros Hres. destruct (reconcile_rows _ _ _ _ _ _ _ Hres) as (S1 & S2 & _).
  cbn zeta in *. rewrite strip_derived_annotation in S1, S2.
  assert (Hl : ∀ l k : list (nat * row),
             sublist (strip_derived <$> l) (strip_derived <$> k) →
             sublist (labels l) (labels k)).
  { intros l k Hs. apply (fmap_sublist fst) in Hs.
    unfold labels. by rewrite <-!list_fmap_compose in Hs. }
  repeat split; try done.
  - rewrite <-labels_reset_index. by apply Hl.
  - rewrite <-labels_reset_index. by apply Hl.
Qed.

Lemma reconcile_keeps_order_witness :
  run statement_bad export_one "Data" "Valor" "date" "amount" = Ok bad_outcome
  ∧ sublist (labels (rows (unmatched_f bad_outcome))) (seq 0 (length (rows statement_bad))).
Proof.
  assert (Hrun : run statement_bad export_one "Data" "Valor" "date" "amount" = Ok bad_outcome).
  { vm_compute. reflexivity. }
  split; [exact Hrun|].
  exact (proj1 (proj2 (proj2 (reconcile_keeps_order (H := reference_runtime) _ _ _ _ _ _ _ Hrun)))).
Defined.

(** C3: [totalA] is the sum of the parsed values of all of [validA],
    [totalB] that of [validB], and [difference] is [totalA - totalB]; the
    totals do not depend on what was matched, so [totalA] is the same
    against any other table B, and [totalB] against any other table A. *)
Theorem reconcile_totals `{Runtime} A B dcf vcf dcm vcm res :
  reconcile A B dcf vcf dcm vcm = Ok res →
  total_f res = series_sum (parsed_value <$> valid A dcf vcf)
  ∧ total_m res = series_sum (parsed_value <$> valid B dcm vcm)
  ∧ difference res = SFsub prec emax (total_f res) (total_m res)
  ∧ (∀ B' dcm' vcm' res',
       reconcile A B' dcf vcf dcm' vcm' = Ok res' → total_f res' = total_f res)
  ∧ (∀ A' dcf' vcf' res',
       reconcile A' B dcf' vcf' dcm vcm = Ok res' → total_m res' = total_m res).
Proof.
  intros Hres. destruct (reconcile_rows _ _ _ _ _ _ _ Hres) as (_ & _ & T1 & T2 & D).
  cbn zeta in *. repeat split; try done.
  - intros B' dcm' vcm' res' Hres'.
    destruct (reconcile_rows _ _ _ _ _ _ _ Hres') as (_ & _ & T1' & _). congruence.
  - intros A' dcf' vcf' res' Hres'.
    destruct (reconcile_rows _ _ _ _ _ _ _ Hres') as (_ & _ & _ & T2' & _). congruence.
Qed.

Lemma reconcile_totals_witness :
  run statement_dup export_dup "Data" "Valor" "Data" "Valor" = Ok dup_outcome
  ∧ total_f dup_outcome = Prim2SF 30
  ∧ total_m dup_outcome = Prim2SF 20
  ∧ difference dup_outcome = Prim2SF 10.
Proof.
  assert (Hrun : run statement_dup export_dup "Data" "Valor" "Data" "Valor" = Ok dup_outcome).
  { vm_compute. reflexivity. }
  split; [exact Hrun|].
  destruct (reconcile_totals (H := reference_runtime) _ _ _ _ _ _ _ Hrun)
    as (T1 & T2 & D & _).
  rewrite D, T1, T2. vm_compute. repeat split; reflexivity.
Defined.

Lemma unmatched_index_valid A B :
  ∀ i, i ∈ index <$> unmatched (greedy_match A B).1 → i ∈ index <$> A.
Proof.
  intros i (a & -> & [_ Ha]%list_elem_of_filter)%list_elem_of_fmap.
  rewrite <-(Forall2_evolves_index _ _ (proj1 (greedy_match_evolves A B))).
  by apply list_elem_of_fmap_2.
Qed.

Lemma unmatched_index_valid_r A B :
  ∀ i, i ∈ index <$> unmatched (greedy_match A B).2 → i ∈ index <$> B.
Proof.
  intros i (a & -> & [_ Ha]%list_elem_of_filter)%list_elem_of_fmap.
  rewrite <-(Forall2_evolves_index _ _ (proj2 (greedy_match_evolves A B))).
  by apply list_elem_of_fmap_2.
Qed.

Lemma absent_not_valid f i r :
  NoDup (labels (rows f)) → (i, r) ∈ rows f →
  row_date r = None ∨ row_value r = None → i ∉ index <$> valid_records f.
Proof.
  intros Hnd Hr Habs (a & -> & Ha)%list_elem_of_fmap.
  apply valid_records_elem in Ha as (r' & Hr' & Hd & Hv).
  rewrite (unique_label _ _ _ _ Hnd Hr Hr') in Habs. destruct Habs; congruence.
Qed.

Lemma parsed_value_keys (l l' : list NormalizedRecord) :
  key_of <$> l = key_of <$> l' → parsed_value <$> l = parsed_value <$> l'.
Proof.
  intros Hk. apply (f_equal (fmap (fun k : Z * spec_float * bool => k.1.2))) in Hk.
  by rewrite <-!list_fmap_compose in Hk.
Qed.

(** C4: a record whose parsed date or parsed value is absent never appears
    in [unmatchedA] or [unmatchedB], and it takes no part in the matching or
    in the totals: two runs whose valid records carry the same dates and
    values in the same order leave unmatched records of the same dates and
    values and return the same totals, whatever else their tables hold. *)
Theorem reconcile_ignores_invalid `{Runtime} A B dcf vcf dcm vcm res :
  reconcile A B dcf vcf dcm vcm = Ok res →
  (∀ i r, (i, r) ∈ rows (annotation A dcf vcf) →
          row_date r = None ∨ row_value r = None →
          i ∉ labels (rows (unmatched_f res)))
  ∧ (∀ i r, (i, r) ∈ rows (annotation B dcm vcm) →
            row_date r = None ∨ row_value r = None →
            i ∉ labels (rows (unmatched_m res)))
  ∧ (∀ A' B' dcf' vcf' dcm' vcm' res',
       reconcile A' B' dcf' vcf' dcm' vcm' = Ok res' →
       key_of <$> valid A' dcf' vcf' = key_of <$> valid A dcf vcf →
       key_of <$> valid B' dcm' vcm' = key_of <$> valid B dcm vcm →
       key_of <$> (record_of <$> rows (unmatched_f res'))
       = key_of <$> (record_of <$> rows (unmatched_f res))
       ∧ key_of <$> (record_of <$> rows (unmatched_m res'))
         = key_of <$> (record_of <$> rows (unmatched_m res))
       ∧ total_f res' = total_f res ∧ total_m res' = total_m res
       ∧ difference res' = difference res).
Proof.
  intros Hres. destruct (reconcile_records _ _ _ _ _ _ _ Hres) as (H1 & H2 & _).
  destruct (reconcile_rows _ _ _ _ _ _ _ Hres) as (_ & _ & T1 & T2 & D).
  cbn zeta in *. split; [|split].
  - intros i r Hr Habs Hin. rewrite <-index_record_of, H1 in Hin.
    apply unmatched_index_valid in Hin.
    by apply (absent_not_valid _ i r (proj1 (annotation_annotated A dcf vcf)) Hr Habs).
  - intros i r Hr Habs Hin. rewrite <-index_record_of, H2 in Hin.
    apply unmatched_index_valid_r in Hin.
    by apply (absent_not_valid _ i r (proj1 (annotation_annotated B dcm vcm)) Hr Habs).
  - intros A' B' dcf' vcf' dcm' vcm' res' Hres' HA HB.
    destruct (reconcile_records _ _ _ _ _ _ _ Hres') as (H1' & H2' & _).
    destruct (reconcile_rows _ _ _ _ _ _ _ Hres') as (_ & _ & T1' & T2' & D').
    cbn zeta in *.
    destruct (greedy_match_keys _ _ _ _ HA HB) as [K1 K2].
    rewrite H1, H2, H1', H2'.
    fold (valid A dcf vcf) in T1. fold (valid B dcm vcm) in T2.
    fold (valid A' dcf' vcf') in T1'. fold (valid B' dcm' vcm') in T2'.
    assert (total_f res' = total_f res) as Ef.
    { by rewrite T1, T1', (parsed_value_keys _ _ HA). }
    assert (total_m res' = total_m res) as Em.
    { by rewrite T2, T2', (parsed_value_keys _ _ HB). }
    repeat split; try done.
    + by apply unmatched_keys.
    + by apply unmatched_keys.
    + by rewrite D, D', Ef, Em.
Qed.

Lemma reconcile_ignores_invalid_witness :
  run statement_bad export_one "Data" "Valor" "date" "amount" = Ok bad_outcome
  ∧ labels (rows (unmatched_f bad_outcome)) = [3%nat]
  ∧ (1%nat ∉ labels (rows (unmatched_f bad_outcome)))
  ∧ (2%nat ∉ labels (rows (unmatched_f bad_outcome)))
  ∧ (1%nat ∉ labels (rows (unmatched_m bad_outcome))).
Proof.
  assert (Hrun : run statement_bad export_one "Data" "Valor" "date" "amount" = Ok bad_outcome).
  { vm_compute. reflexivity. }
  split; [exact Hrun|].
  destruct (reconcile_ignores_invalid (H := reference_runtime) _ _ _ _ _ _ _ Hrun)
    as (HA & HB & _).
  split; [vm_compute; reflexivity|].
  pose (nth_row := fun (df : DataFrame) (i : nat) => (default (0%nat, ∅) (rows df !! i)).2).
  assert (Hrow : ∀ (df : DataFrame) (i : nat),
             rows df !! i = Some (i, nth_row df i) → (i, nth_row df i) ∈ rows df).
  { intros df i Hi. by apply list_elem_of_lookup_2 in Hi. }
  repeat split.
  - apply (HA 1%nat (nth_row (@annotation reference_runtime statement_bad "Data" "Valor") 1%nat)).
    + apply Hrow. vm_compute. reflexivity.
    + left. vm_compute. reflexivity.
  - apply (HA 2%nat (nth_row (@annotation reference_runtime statement_bad "Data" "Valor") 2%nat)).
    + apply Hrow. vm_compute. reflexivity.
    + right. vm_compute. reflexivity.
  - apply (HB 1%nat (nth_row (@annotation reference_runtime export_one "date" "amount") 1%nat)).
    + apply Hrow. vm_compute. reflexivity.
    + left. vm_compute. reflexivity.
Defined.


(** The one way to an exception: a designated column the table lacks. *)
Lemma reconcile_missing_column `{Runtime} A B dcf vcf dcm vcm :
  dcf ∉ columns A → reconcile A B dcf vcf dcm vcm = Raise (KeyError dcf).
Proof.
  intros Hc. unfold reconcile, bind, getitem, reset_index, copy. cbn [columns].
  by rewrite bool_decide_eq_false_2.
Qed.


(** ** The claims on the normaliser *)

Lemma contains_char_count c s : contains_char c s = negb (count_char c s =? 0)%nat.
Proof.
  induction s as [|d s IH]; [done|]. cbn [contains_char count_char].
  rewrite IH. by destruct (Ascii.eqb d c).
Qed.

Lemma count_char_replace a b s :
  Ascii.eqb b a = false → count_char a (replace_char a b s) = 0%nat.
Proof.
  intros Hab. induction s as [|c s IH]; [done|]. cbn [replace_char count_char].
  rewrite IH. destruct (Ascii.eqb c a) eqn:E; by rewrite ?Hab, ?E.
Qed.

(** The two [if]s of lines 38 to 41 are the three-way rule. *)
Lemma cleaned_regional text :
  cleaned text = regional (remove_chars currency_or_space (strip text)).
Proof.
  unfold cleaned, regional. cbn zeta.
  generalize (remove_chars currency_or_space (strip text)). intros s.
  rewrite contains_char_count.
  destruct (count_char "," s) as [|[|n]] eqn:E; cbn [Nat.eqb negb andb].
  - by rewrite E.
  - by rewrite count_char_replace.
  - by rewrite E.
Qed.

(** C5: [normalise_numeric] applies the regional decimal rules. On text its
    result is [float] of the text stripped of blanks and currency markers
    and rewritten by [regional] (one comma: dots removed, the comma a
    decimal point; more commas: all removed), so the five values the
    specification lists come out: 1234.56, 1234.56, 10.00, absent, absent. *)
Theorem normalise_numeric_regional `{Runtime} :
  (∀ s, normalise_numeric (PyStr s)
        = float_from_string (regional (remove_chars currency_or_space (strip s))))
  ∧ normalise_numeric (PyStr "1.234,56") = Some (Prim2SF 1234.56)
  ∧ normalise_numeric (PyStr "1234.56") = Some (Prim2SF 1234.56)
  ∧ normalise_numeric (PyStr "R$ 10,00") = Some (Prim2SF 10.00)
  ∧ normalise_numeric (PyStr "abc") = None
  ∧ normalise_numeric PyNone = None.
Proof.
  split; [|repeat split; vm_compute; reflexivity].
  intros s. unfold normalise_numeric, py_str. by rewrite cleaned_regional.
Qed.

(** ** Rounding never yields NaN *)

Lemma shr_1_nonneg mrs : 0 <= shr_m mrs → 0 <= shr_m (shr_1 mrs).
Proof. destruct mrs as [[|[p|p|]|[p|p|]] r s]; cbn; lia. Qed.

Lemma iter_pos_shr_1_nonneg p : ∀ mrs,
  0 <= shr_m mrs → 0 <= shr_m (SpecFloat.iter_pos shr_1 p mrs).
Proof.
  induction p as [p IH|p IH|]; intros mrs Hm; cbn [SpecFloat.iter_pos].
  - by apply IH, IH, shr_1_nonneg.
  - by apply IH, IH.
  - by apply shr_1_nonneg.
Qed.

Lemma shr_fexp_nonneg m e l :
  0 <= m → 0 <= shr_m (shr_fexp prec emax m e l).1.
Proof.
  intros Hm. unfold shr_fexp, shr.
  assert (0 <= shr_m (shr_record_of_loc m l)) as H0.
  { by destruct l as [|[]]. }
  destruct (fexp prec emax (Zdigits2 m + e) - e); cbn [fst]; try done.
  by apply iter_pos_shr_1_nonneg.
Qed.

Lemma round_nearest_even_nonneg m l : 0 <= m → 0 <= round_nearest_even m l.
Proof.
  intros Hm. destruct l as [|[]]; cbn; try lia. destruct (Z.even m); lia.
Qed.

Lemma binary_round_aux_not_nan s m e l :
  0 <= m → is_nan (binary_round_aux prec emax s m e l) = false.
Proof.
  intros Hm. unfold binary_round_aux.
  pose proof (shr_fexp_nonneg m e l Hm) as H1.
  destruct (shr_fexp prec emax m e l) as [mrs' e']. cbn [fst] in H1.
  pose proof (shr_fexp_nonneg _ e' loc_Exact
                (round_nearest_even_nonneg _ (loc_of_shr_record mrs') H1)) as H2.
  destruct (shr_fexp prec emax _ e' loc_Exact) as [mrs'' e'']. cbn [fst] in H2.
  destruct (shr_m mrs'') as [|p|p]; [done| |lia].
  by destruct (e'' <=? emax - prec).
Qed.

Lemma binary_normalize_not_nan m e : is_nan (binary_normalize prec emax m e false) = false.
Proof.
  destruct m as [|p|p]; [done| |]; cbn [binary_normalize]; unfold binary_round;
    destruct (shl_align _ _ _) as [mz ez]; by apply binary_round_aux_not_nan.
Qed.

Lemma SFdiv_not_nan s p q :
  is_nan (SFdiv prec emax (S754_finite s p 0) (S754_finite false q 0)) = false.
Proof.
  cbn [SFdiv]. unfold SFdiv_core_binary.
  set (m' := match _ - _ - _ with Z0 => _ | Zpos _ => _ | Zneg _ => _ end).
  assert (0 <= m') as Hm'.
  { unfold m'. destruct (_ - _ - _); [lia| |lia]. apply Z.shiftl_nonneg. lia. }
  pose proof (Z_div_mod m' (Zpos q) eq_refl) as Hdiv.
  destruct (Z.div_eucl m' (Zpos q)) as [d r].
  apply binary_round_aux_not_nan. destruct Hdiv as [Hd Hr]. nia.
Qed.

(** The float of a decimal numeral is a number: finite, or an infinity. *)
Lemma decimal_to_float_not_nan neg m e : is_nan (decimal_to_float neg m e) = false.
Proof.
  unfold decimal_to_float. destruct m as [|p|p]; try done.
  destruct e as [|k|k]; [apply binary_normalize_not_nan..|apply SFdiv_not_nan].
Qed.

(** ** Where a NaN can come from *)

Lemma lower_digit c : is_digit c = true → lower c = c.
Proof.
  unfold is_digit, lower. intros [H1 H2]%andb_true_iff.
  apply Nat.leb_le in H2.
  rewrite (proj2 (Nat.leb_gt 65 _)); [done|lia].
Qed.

Lemma eq_nocase_letter c d :
  Ascii.eqb (lower c) d = true → is_digit d = false → is_digit c = false.
Proof.
  intros Hc%Ascii.eqb_eq Hd. destruct (is_digit c) eqn:E; [|done].
  rewrite (lower_digit c E) in Hc. congruence.
Qed.

Lemma eq_nocase_nan_no_digit s : eq_nocase s "nan" = true → has_digit s = false.
Proof.
  destruct s as [|c1 [|c2 [|c3 [|]]]]; cbn [eq_nocase]; try done;
    rewrite ?andb_false_r; try done.
  intros [H1 [H2 [H3 _]%andb_true_iff]%andb_true_iff]%andb_true_iff.
  cbn [has_digit].
  by rewrite (eq_nocase_letter _ _ H1), (eq_nocase_letter _ _ H2), (eq_nocase_letter _ _ H3).
Qed.

Lemma parse_sign_has_digit s : has_digit (parse_sign s).2 = has_digit s.
Proof.
  destruct s as [|c s]; [done|]. unfold parse_sign.
  destruct c as [[] [] [] [] [] [] [] []]; reflexivity.
Qed.

(** A text with no digit passes the underscore screen unchanged or not at all. *)
Lemma strip_underscores_no_digit s : ∀ prev s',
  strip_underscores prev s = Some s' → has_digit s' = false → s' = s.
Proof.
  induction s as [|c s IH]; intros prev s'; cbn [strip_underscores].
  { destruct (Ascii.eqb prev "_"); [done|]. by intros [= <-]. }
  destruct (Ascii.eqb c "_") eqn:Ec.
  - destruct (is_digit prev); [|done].
    destruct s as [|d s]; cbn [strip_underscores]; rewrite Ec; [done|].
    destruct (Ascii.eqb d "_"); [apply Ascii.eqb_eq in Ec as ->; done|].
    cbn [andb]. destruct (is_digit d) eqn:Ed; [|done]. cbn [negb].
    destruct (strip_underscores d s) as [s1|]; [|done]. cbn.
    intros [= <-]. cbn [has_digit]. by rewrite Ed.
  - destruct (Ascii.eqb prev "_" && negb (is_digit c)); [done|].
    destruct (strip_underscores c s) as [s1|] eqn:E1; [|done]. cbn.
    intros [= <-]. cbn [has_digit]. intros [_ H1]%orb_false_iff.
    by rewrite (IH c s1 E1 H1).
Qed.

Lemma float_of_numeral_not_nan neg n : is_nan (float_of_numeral neg n) = false.
Proof. destruct n as [[ip fp] e]. apply decimal_to_float_not_nan. Qed.

(** [float(s)] is a number unless [s] spells NaN. *)
Lemma float_from_string_nan s x :
  float_from_string s = Some x → is_nan x = true → nan_word s = true.
Proof.
  unfold float_from_string, nan_word.
  destruct (strip_underscores "000" (c_strip s)) as [s1|] eqn:E1; [|done]. cbn.
  destruct (parse_sign s1) as [neg body] eqn:E2.
  destruct (eq_nocase body "inf" || eq_nocase body "infinity").
  { by intros [= <-]. }
  destruct (eq_nocase body "nan") eqn:E3.
  - intros _ _.
    assert (has_digit s1 = false) as Hd.
    { rewrite <-parse_sign_has_digit, E2. by apply eq_nocase_nan_no_digit. }
    rewrite <-(strip_underscores_no_digit _ _ _ E1 Hd), E2. done.
  - destruct (parse_number body) as [n|]; [|done]. cbn. intros [= <-].
    by rewrite float_of_numeral_not_nan.
Qed.

(** C6, as amended: [normalise_numeric] returns absent for [None] and for
    a NaN; whatever it returns for a text that does not spell NaN is a
    number, finite or infinite; and it does return infinities: for the
    words [inf] and [Infinity], and for a numeral beyond the range of a
    float. *)
Theorem normalise_numeric_range `{Runtime} :
  normalise_numeric PyNone = None
  ∧ normalise_numeric (PyFloat S754_nan) = None
  ∧ (∀ value x, normalise_numeric value = Some x →
       is_finite x = true ∨ is_inf x = true ∨ nan_word (cleaned (py_str value)) = true)
  ∧ normalise_numeric (PyStr "inf") = Some (S754_infinity false)
  ∧ normalise_numeric (PyStr "-Infinity") = Some (S754_infinity true)
  ∧ normalise_numeric (PyStr "1e999") = Some (S754_infinity false)
  ∧ normalise_numeric (PyStr "1e308") = Some (Prim2SF 1e308).
Proof.
  split; [done|]. split; [done|]. split; [|repeat split; vm_compute; reflexivity].
  intros value x Hx.
  assert (float_from_string (cleaned (py_str value)) = Some x) as Hf.
  { unfold normalise_numeric in Hx. destruct value as [| | |[]| | |]; done. }
  destruct x as [s|s| |s m e]; auto.
  right. right. by eapply float_from_string_nan.
Qed.

(** C6 fails as stated: the text [inf] is given back as an infinity, not as
    absent and not as a finite float. *)
Lemma normalise_numeric_infinite :
  @normalise_numeric reference_runtime (PyStr "inf") = Some (S754_infinity false)
  ∧ is_finite (S754_infinity false) = false
  ∧ @normalise_numeric reference_runtime (PyFloat (S754_infinity true))
    = Some (S754_infinity true).
Proof. repeat split; vm_compute; reflexivity. Qed.

(** The guard of line 34 sees floats only, so the text [nan] comes back as
    a NaN.  In [reconcile] its row is dropped all the same: [dropna] counts
    a NaN as missing. *)
Lemma normalise_numeric_nan_text `{Runtime} :
  normalise_numeric (PyStr "nan") = Some S754_nan
  ∧ nan_word (cleaned "nan") = true
  ∧ isna (value_cell (normalise_numeric (PyStr "nan"))) = true.
Proof. repeat split; vm_compute; reflexivity. Qed.

(** ** Exact equality, not rounded equality *)

(** C1 fails as stated: 10.10 and 10.099999999, of one date, round to the
    same value at two decimal places, and [reconcile] leaves both rows
    unmatched. *)
Lemma reconcile_does_not_round :
  @valid reference_runtime (one_row "10.10") "Data" "Valor"
  = [mkRecord 0 1704067200000000000 (Prim2SF 10.10) false]
  ∧ @valid reference_runtime (one_row "10.099999999") "Data" "Valor"
    = [mkRecord 0 1704067200000000000 (Prim2SF 10.099999999) false]
  ∧ SFeqb (round2 (Prim2SF 10.10)) (round2 (Prim2SF 10.099999999)) = true
  ∧ run (one_row "10.10") (one_row "10.099999999") "Data" "Valor" "Data" "Valor"
    = Ok near_outcome
  ∧ labels (rows (unmatched_f near_outcome)) = [0%nat]
  ∧ labels (rows (unmatched_m near_outcome)) = [0%nat].
Proof. repeat split; vm_compute; reflexivity. Qed.

(** C1, as amended: the comparison used for matching is [==] on the parsed
    floats, with no rounding. When each side has one valid record and the
    two dates are equal, the two records are matched exactly when their
    parsed values are equal as floats; otherwise both stay unmatched. *)
Theorem reconcile_exact_equality `{Runtime} A B dcf vcf dcm vcm res a b :
  reconcile A B dcf vcf dcm vcm = Ok res →
  valid A dcf vcf = [a] → valid B dcm vcm = [b] →
  parsed_date a = parsed_date b →
  (SFeqb (parsed_value b) (parsed_value a) = true →
     rows (unmatched_f res) = [] ∧ rows (unmatched_m res) = [])
  ∧ (SFeqb (parsed_value b) (parsed_value a) = false →
       record_of <$> rows (unmatched_f res) = [a]
       ∧ record_of <$> rows (unmatched_m res) = [b]).
Proof.
  intros Hres HA HB Hd.
  destruct (reconcile_records _ _ _ _ _ _ _ Hres) as (H1 & H2 & _). cbn zeta in *.
  pose proof (valid_records_flags (annotation A dcf vcf)) as HfA.
  pose proof (valid_records_flags (annotation B dcm vcm)) as HfB.
  fold (valid A dcf vcf) in HfA. fold (valid B dcm vcm) in HfB.
  rewrite HA in *. rewrite HB in *.
  apply Forall_cons in HfA as [Ha _]. apply Forall_cons in HfB as [Hb _].
  cbn [greedy_match first_unmatched] in H1, H2.
  rewrite Ha, Hb in H1, H2. unfold same_key in H1, H2.
  rewrite Hd, Z.eqb_refl in H1, H2. cbn [negb andb] in H1, H2.
  assert (U1 : ∀ c, unmatched [mark c] = []) by done.
  assert (U2 : ∀ c, matched c = false → unmatched [c] = [c]).
  { intros c Hc. unfold unmatched. by rewrite filter_cons, decide_True. }
  split; intros E; rewrite E in H1, H2;
    cbn [fst snd fmap option_fmap option_map] in H1, H2.
  - rewrite U1 in H1, H2. split; by eapply fmap_nil_inv.
  - by rewrite U2 in H1, H2.
Qed.

Lemma reconcile_exact_equality_witness :
  run (one_row "10.10") (one_row "10,1") "Data" "Valor" "Data" "Valor" = Ok same_outcome
  ∧ rows (unmatched_f same_outcome) = [] ∧ rows (unmatched_m same_outcome) = [].
Proof.
  assert (Hrun : run (one_row "10.10") (one_row "10,1") "Data" "Valor" "Data" "Valor"
                 = Ok same_outcome).
  { vm_compute. reflexivity. }
  split; [exact Hrun|].
  refine (proj1 (reconcile_exact_equality (H := reference_runtime) _ _ _ _ _ _ _
            (mkRecord 0 1704067200000000000 (Prim2SF 10.10) false)
            (mkRecord 0 1704067200000000000 (Prim2SF 10.10) false) Hrun _ _ _) _).
  - vm_compute. reflexivity.
  - vm_compute. reflexivity.
  - reflexivity.
  - vm_compute. reflexivity.
Defined.

(** ** The run on a store *)






Section store_run.
Context `{Runtime}.





End store_run.



(** * Further properties *)

(** ** The matching in closed form *)

Lemma SFeqb_comm x y : SFeqb x y = SFeqb y x.
Proof.
  destruct (SFeqb x y) eqn:E1, (SFeqb y x) eqn:E2; try done.
  - apply SFeqb_sym in E1. congruence.
  - apply SFeqb_sym in E2. congruence.
Qed.

Lemma SFeqb_trans x y z : SFeqb x y = true → SFeqb x z = SFeqb y z.
Proof.
  intros [(s & s' & -> & ->)|[<- _]]%SFeqb_true; [|done].
  destruct z as [sz|sz| |sz m e]; try destruct sz; by destruct s, s'.
Qed.

Lemma same_key_comm a b : same_key a b = same_key b a.
Proof. unfold same_key. by rewrite Z.eqb_sym, SFeqb_comm. Qed.

Lemma same_key_trans a b c : same_key a b = true → same_key a c = same_key b c.
Proof.
  unfold same_key. intros [Hd Hv]%andb_true_iff. apply Z.eqb_eq in Hd.
  rewrite Hd. f_equal. rewrite !(SFeqb_comm (parsed_value c)).
  symmetry. by apply SFeqb_trans.
Qed.

Lemma same_key_mark a b : same_key a (mark b) = same_key a b.
Proof. done. Qed.

Lemma count_key_nil a : count_key a [] = 0%nat.
Proof. done. Qed.

Lemma count_key_cons a b l :
  count_key a (b :: l) = ((if same_key a b then 1 else 0) + count_key a l)%nat.
Proof.
  unfold count_key. rewrite filter_cons.
  destruct (same_key a b); [by rewrite decide_True|by rewrite decide_False].
Qed.

Lemma count_key_app a l k : count_key a (l ++ k) = (count_key a l + count_key a k)%nat.
Proof. unfold count_key. by rewrite filter_app, length_app. Qed.

Lemma count_key_eq a b l : same_key a b = true → count_key a l = count_key b l.
Proof.
  intros Hab. induction l as [|c l IH]; [done|].
  by rewrite !count_key_cons, IH, (same_key_trans a b c Hab).
Qed.

Lemma settle_app seen l1 l2 other :
  settle seen (l1 ++ l2) other = settle seen l1 other ++ settle (seen ++ l1) l2 other.
Proof.
  revert seen. induction l1 as [|a l1 IH]; intros seen; cbn [settle app].
  - by rewrite app_nil_r.
  - by rewrite IH, <-app_assoc.
Qed.

Lemma settle_nil seen l : settle seen l [] = l.
Proof. revert seen. induction l as [|a l IH]; intros seen; cbn [settle]; [done|]. by rewrite IH. Qed.

(** Once [seen] holds more records of the key of [a] than [A], one more
    [a] changes nothing. *)
Lemma settle_saturated a A B : ∀ seen,
  (count_key a A < count_key a seen)%nat →
  settle seen B (A ++ [a]) = settle seen B A.
Proof.
  induction B as [|b B IH]; intros seen Hlt; cbn [settle]; [done|].
  rewrite IH by (rewrite count_key_app; lia). f_equal.
  rewrite count_key_app, count_key_cons, count_key_nil.
  destruct (same_key b a) eqn:Eba; [|by rewrite Nat.add_0_r].
  rewrite (count_key_eq b a seen Eba), (count_key_eq b a A Eba).
  rewrite (proj2 (Nat.ltb_ge _ _)) by lia. by rewrite (proj2 (Nat.ltb_ge _ _)) by lia.
Qed.

(** The scan for [a] of the export as the records [A] left it. *)
Lemma settle_first a A B : ∀ seen,
  Forall (fun b => matched b = false) B →
  (count_key a seen ≤ count_key a A)%nat →
  match first_unmatched a (settle seen B A) with
  | Some B1 =>
      B1 = settle seen B (A ++ [a])
      ∧ (count_key a A < count_key a seen + count_key a B)%nat
  | None =>
      settle seen B (A ++ [a]) = settle seen B A
      ∧ (count_key a seen + count_key a B ≤ count_key a A)%nat
  end.
Proof.
  induction B as [|b B IH]; intros seen HB Hle; cbn [settle first_unmatched].
  { split; [done|]. rewrite count_key_nil. lia. }
  apply Forall_cons in HB as [Hb HB].
  rewrite (count_key_cons a b B), (count_key_app b A), (count_key_cons b a), count_key_nil.
  rewrite (same_key_comm b a).
  destruct (same_key a b) eqn:Eab.
  - rewrite <-(count_key_eq a b seen Eab), <-(count_key_eq a b A Eab).
    destruct (Nat.ltb_spec (count_key a seen) (count_key a A)) as [Hlt|Hge].
    + cbn [matched mark negb andb].
      specialize (IH (seen ++ [b]) HB).
      rewrite count_key_app, count_key_cons, count_key_nil, Eab in IH.
      specialize (IH ltac:(lia)).
      rewrite (proj2 (Nat.ltb_lt _ _)) by lia.
      destruct (first_unmatched a (settle (seen ++ [b]) B A)) as [B1|];
        cbn [fmap option_fmap option_map].
      * destruct IH as [-> IH]. split; [done|lia].
      * destruct IH as [-> IH]. split; [done|lia].
    + rewrite Hb, Eab. cbn [negb andb].
      rewrite (proj2 (Nat.ltb_lt _ _)) by lia.
      rewrite settle_saturated by (rewrite count_key_app, count_key_cons, Eab; lia).
      split; [done|lia].
  - cbn [Nat.add]. rewrite Nat.add_0_r.
    assert (same_key a (if (count_key b seen <? count_key b A)%nat then mark b else b) = false)
      as -> by (by destruct (_ <? _)%nat).
    rewrite andb_false_r.
    specialize (IH (seen ++ [b]) HB).
    rewrite count_key_app, count_key_cons, count_key_nil, Eab in IH.
    specialize (IH ltac:(lia)).
    destruct (first_unmatched a (settle (seen ++ [b]) B A)) as [B1|];
      cbn [fmap option_fmap option_map].
    + destruct IH as [-> IH]. split; [done|lia].
    + destruct IH as [-> IH]. split; [done|lia].
Qed.

Lemma greedy_match_app A1 : ∀ A2 B,
  greedy_match (A1 ++ A2) B
  = ((greedy_match A1 B).1 ++ (greedy_match A2 (greedy_match A1 B).2).1,
     (greedy_match A2 (greedy_match A1 B).2).2).
Proof.
  induction A1 as [|a A1 IH]; intros A2 B; cbn [app greedy_match].
  { cbn [fst snd app]. by destruct (greedy_match A2 B). }
  destruct (matched a).
  - rewrite IH. destruct (greedy_match A1 B) as [A1' B1]. cbn [fst snd].
    by destruct (greedy_match A2 B1).
  - destruct (first_unmatched a B) as [B0|].
    + rewrite IH. destruct (greedy_match A1 B0) as [A1' B1]. cbn [fst snd].
      by destruct (greedy_match A2 B1).
    + rewrite IH. destruct (greedy_match A1 B) as [A1' B1]. cbn [fst snd].
      by destruct (greedy_match A2 B1).
Qed.

(** The matching in closed form, on both sides. *)
Lemma greedy_match_settle A B :
  Forall (fun a => matched a = false) A → Forall (fun b => matched b = false) B →
  greedy_match A B = (settle [] A B, settle [] B A).
Proof.
  intros HA HB. induction A as [|a A IH] using rev_ind.
  { by rewrite settle_nil. }
  apply Forall_app in HA as [HA [Ha _]%Forall_cons].
  rewrite greedy_match_app, (IH HA). cbn [fst snd greedy_match]. rewrite Ha.
  rewrite settle_app. cbn [settle app].
  pose proof (settle_first a A B [] HB) as Hfirst.
  rewrite count_key_nil in Hfirst. specialize (Hfirst ltac:(lia)).
  destruct (first_unmatched a (settle [] B A)) as [B1|]; cbn [fst snd].
  - destruct Hfirst as [-> Hlt]. by rewrite (proj2 (Nat.ltb_lt _ _)) by lia.
  - destruct Hfirst as [-> Hge]. by rewrite (proj2 (Nat.ltb_ge _ _)) by lia.
Qed.

Lemma unmatched_settle l other : ∀ seen,
  Forall (fun a => matched a = false) l →
  unmatched (settle seen l other) = surplus seen l other.
Proof.
  induction l as [|a l IH]; intros seen Hl; cbn [settle surplus]; [done|].
  apply Forall_cons in Hl as [Ha Hl]. unfold unmatched in *. rewrite filter_cons.
  destruct (count_key a seen <? count_key a other)%nat.
  - rewrite decide_False by done. by apply IH.
  - rewrite decide_True by done. cbn [app]. f_equal. by apply IH.
Qed.

Lemma elem_of_surplus a l other : ∀ seen,
  a ∈ surplus seen l other
  ↔ ∃ i, l !! i = Some a ∧ (count_key a other ≤ count_key a (seen ++ take i l))%nat.
Proof.
  induction l as [|b l IH]; intros seen; cbn [surplus].
  { split; [by intros ?%elem_of_nil|]. by intros (i & ? & _). }
  rewrite elem_of_app, IH. split.
  - intros [Hhd|(i & Hi & Hle)].
    + exists 0%nat. destruct (Nat.ltb_spec (count_key b seen) (count_key b other));
        [by apply elem_of_nil in Hhd|].
      apply list_elem_of_singleton in Hhd as ->. cbn [take]. by rewrite app_nil_r.
    + exists (S i). split; [done|]. cbn [take]. by rewrite <-app_assoc in Hle.
  - intros ([|i] & Hi & Hle).
    + left. injection Hi as ->. cbn [take] in Hle. rewrite app_nil_r in Hle.
      rewrite (proj2 (Nat.ltb_ge _ _)) by done. by left.
    + right. exists i. split; [done|]. cbn [take] in Hle. by rewrite <-app_assoc.
Qed.

(** Of each key, the surplus holds what the table has beyond the other. *)
Lemma count_key_surplus k l other : ∀ seen,
  count_key k (surplus seen l other)
  = ((count_key k (seen ++ l) - count_key k other)
     - (count_key k seen - count_key k other))%nat.
Proof.
  induction l as [|a l IH]; intros seen; cbn [surplus].
  { rewrite app_nil_r, count_key_nil. lia. }
  rewrite count_key_app, IH, !count_key_app, !(count_key_cons k a), count_key_nil.
  destruct (same_key k a) eqn:Eka.
  - rewrite <-(count_key_eq k a seen Eka), <-(count_key_eq k a other Eka).
    destruct (Nat.ltb_spec (count_key k seen) (count_key k other));
      rewrite ?count_key_cons, ?Eka, ?count_key_nil; lia.
  - destruct (_ <? _)%nat; rewrite ?count_key_cons, ?Eka, ?count_key_nil; lia.
Qed.

Lemma count_key_elem k a l : a ∈ l → same_key k a = true → (1 ≤ count_key k l)%nat.
Proof.
  intros (l1 & l2 & ->)%list_elem_of_split Hk.
  rewrite count_key_app, count_key_cons, Hk. lia.
Qed.

(** Nothing is left over exactly when the other table has as many records
    of every key. *)
Lemma surplus_nil l other :
  Forall (fun a => same_key a a = true) l →
  surplus [] l other = [] ↔ ∀ a, a ∈ l → (count_key a l ≤ count_key a other)%nat.
Proof.
  intros Hrefl. rewrite Forall_forall in Hrefl. split.
  - intros Hnil a Ha. pose proof (count_key_surplus a l other []) as Hc.
    rewrite Hnil, !count_key_nil in Hc. cbn [app] in Hc. lia.
  - intros Hle. destruct (surplus [] l other) as [|u r] eqn:E; [done|].
    assert (Hu : u ∈ surplus [] l other) by (rewrite E; by left).
    pose proof Hu as (i & Hi%list_elem_of_lookup_2 & _)%elem_of_surplus.
    pose proof (count_key_elem u u _ Hu (Hrefl u Hi)) as H1.
    rewrite count_key_surplus, count_key_nil in H1. cbn [app] in H1.
    specialize (Hle u Hi). lia.
Qed.


Lemma surplus_none l : ∀ seen, surplus seen l [] = l.
Proof.
  induction l as [|a l IH]; intros seen; cbn [surplus]; [done|].
  rewrite count_key_nil. cbn. by rewrite IH.
Qed.

Lemma mark_row_idemp r : mark_row (mark_row r) = mark_row r.
Proof. unfold mark_row. cbn [fst snd]. by rewrite insert_insert_eq. Qed.

Lemma marked_from_refl l : Forall2 marked_from l l.
Proof. induction l; constructor; [by left|done]. Qed.

Lemma marked_from_trans l1 l2 l3 :
  Forall2 marked_from l1 l2 → Forall2 marked_from l2 l3 → Forall2 marked_from l1 l3.
Proof.
  intros H. revert l3. induction H as [|r1 r2 l1 l2 H12 _ IH]; inversion 1 as [|? r3 ? ? H23]; subst;
    constructor; [|by apply IH].
  destruct H12 as [->| ->], H23 as [->| ->]; unfold marked_from; rewrite ?mark_row_idemp; auto.
Qed.

Lemma first_candidate_marks row_f B B1 :
  first_candidate row_f B = Some B1 → Forall2 marked_from B B1.
Proof.
  revert B1. induction B as [|b B IH]; intros B1; cbn [first_candidate]; [done|].
  destruct (candidate row_f b.2).
  - intros [= <-]. constructor; [by right|apply marked_from_refl].
  - destruct (first_candidate row_f B) as [B2|]; [|done].
    cbn. intros [= <-]. constructor; [by left|by apply IH].
Qed.

(** The loop only ever raises flags. *)
Lemma greedy_rows_marks A : ∀ B,
  Forall2 marked_from A (greedy_rows A B).1 ∧ Forall2 marked_from B (greedy_rows A B).2.
Proof.
  induction A as [|a A IH]; intros B; cbn [greedy_rows].
  { split; [constructor|apply marked_from_refl]. }
  destruct (as_bool (a.2 !!! "_matched")).
  - destruct (IH B) as [H1 H2]. destruct (greedy_rows A B). cbn [fst snd] in *.
    split; [|done]. constructor; [by left|done].
  - destruct (first_candidate a.2 B) as [B1|] eqn:E.
    + destruct (IH B1) as [H1 H2]. destruct (greedy_rows A B1). cbn [fst snd] in *.
      split; [constructor; [by right|done]|].
      eapply marked_from_trans; [by eapply first_candidate_marks|done].
    + destruct (IH B) as [H1 H2]. destruct (greedy_rows A B). cbn [fst snd] in *.
      split; [|done]. constructor; [by left|done].
Qed.

Lemma marked_from_labels l l' : Forall2 marked_from l l' → labels l' = labels l.
Proof.
  unfold labels. induction 1 as [|r r' l l' [->| ->] _ IH]; [done|..];
    by rewrite !fmap_cons, IH.
Qed.

Lemma filter_ext_in {X} (P Q : X → Prop) `{∀ x, Decision (P x)} `{∀ x, Decision (Q x)}
    (l : list X) :
  (∀ x, x ∈ l → P x ↔ Q x) → filter P l = filter Q l.
Proof.
  induction l as [|x l IH]; intros HPQ; [done|]. rewrite !filter_cons.
  rewrite IH by (intros y Hy; apply HPQ; by right).
  destruct (decide (P x)) as [Hp|Hp].
  - by rewrite decide_True by (apply HPQ; [by left|done]).
  - rewrite decide_False; [done|]. intros Hq. apply Hp, HPQ; [by left|done].
Qed.

(** The rows left with their flag down are rows of the frame the loop
    started from, picked by label. *)
Lemma unmatched_rows_by_label l l' :
  Forall2 marked_from l l' → NoDup (labels l) →
  Forall (fun r => as_bool (r.2 !!! "_matched") = false) l →
  filter flag_is_down l' = filter (fun r => r.1 ∈ labels (filter flag_is_down l')) l.
Proof.
  induction 1 as [|r r' l l' Hr Hl IH]; [done|].
  unfold labels in *. rewrite fmap_cons.
  intros [Hnr Hnd]%NoDup_cons [Hf Hfl]%Forall_cons.
  specialize (IH Hnd Hfl).
  assert (Hsub : ∀ i, i ∈ fst <$> filter flag_is_down l' → i ∈ fst <$> l).
  { intros i (x & -> & [_ Hx]%list_elem_of_filter)%list_elem_of_fmap.
    change (x.1 ∈ labels l). rewrite <-(marked_from_labels l l' Hl).
    by apply list_elem_of_fmap_2. }
  rewrite !filter_cons. destruct Hr as [->| ->].
  - rewrite decide_True by (unfold flag_is_down; by rewrite Hf).
    rewrite fmap_cons, decide_True by (by left). f_equal.
    rewrite IH at 1. apply filter_ext_in.
    intros x Hx. rewrite elem_of_cons. split; [by right|].
    intros [Heq|?]; [|done]. exfalso. apply Hnr. rewrite <-Heq.
    by apply list_elem_of_fmap_2.
  - assert (Hup : ¬ flag_is_down (mark_row r)).
    { unfold flag_is_down, mark_row. cbn [snd]. by rewrite lookup_total_insert_eq. }
    rewrite decide_False by done.
    rewrite decide_False; [done|]. intros Hin. apply Hnr. by apply Hsub.
Qed.

Lemma valid_records_NoDup f : annotated f → NoDup (valid_records f).
Proof.
  intros [Hnd Han]. apply (NoDup_fmap_1 index).
  rewrite <-valid_rows_records, index_record_of by done. by apply valid_rows_NoDup.
Qed.

Lemma valid_records_refl f : Forall (fun a => same_key a a = true) (valid_records f).
Proof.
  apply Forall_forall. intros a Ha%valid_records_not_nan.
  unfold same_key. by rewrite Z.eqb_refl, SFeqb_refl.
Qed.


Lemma frame_eq (d d' : DataFrame) : columns d = columns d' → rows d = rows d' → d = d'.
Proof. destruct d, d'. cbn. by intros -> ->. Qed.


Section engine_outcome.
Context `{Runtime}.

(** The unmatched records in closed form. *)
Lemma reconcile_surplus A B dcf vcf dcm vcm res :
  reconcile A B dcf vcf dcm vcm = Ok res →
  record_of <$> rows (unmatched_f res) = surplus [] (valid A dcf vcf) (valid B dcm vcm)
  ∧ record_of <$> rows (unmatched_m res) = surplus [] (valid B dcm vcm) (valid A dcf vcf).
Proof.
  intros Hres. destruct (reconcile_records _ _ _ _ _ _ _ Hres) as (H1 & H2 & _).
  cbn zeta in *.
  pose proof (valid_records_flags (annotation A dcf vcf)) as HfA.
  pose proof (valid_records_flags (annotation B dcm vcm)) as HfB.
  fold (valid A dcf vcf) in HfA. fold (valid B dcm vcm) in HfB.
  rewrite (greedy_match_settle _ _ HfA HfB) in H1, H2. cbn [fst snd] in H1, H2.
  by rewrite !unmatched_settle in H1, H2.
Qed.

(** The two reports as frames. *)
Lemma reconcile_reports A B dcf vcf dcm vcm res :
  reconcile A B dcf vcf dcm vcm = Ok res →
  unmatched_f res
  = report (annotation A dcf vcf) (surplus [] (valid A dcf vcf) (valid B dcm vcm))
  ∧ unmatched_m res
    = report (annotation B dcm vcm) (surplus [] (valid B dcm vcm) (valid A dcf vcf)).
Proof.
  intros Hres. destruct (reconcile_surplus _ _ _ _ _ _ _ Hres) as [S1 S2].
  apply reconcile_Ok in Hres. subst res.
  set (f := annotation A dcf vcf) in *. set (m := annotation B dcm vcm) in *.
  destruct (annotation_annotated A dcf vcf) as [Hf _].
  destruct (annotation_annotated B dcm vcm) as [Hm _]. fold f in Hf. fold m in Hm.
  destruct (greedy_rows_marks (valid_rows f) (valid_rows m)) as [M1 M2].
  pose proof (unmatched_rows_by_label _ _ M1 (valid_rows_NoDup f Hf) (valid_rows_flags f)) as R1.
  pose proof (unmatched_rows_by_label _ _ M2 (valid_rows_NoDup m Hm) (valid_rows_flags m)) as R2.
  destruct (reconcile_frames_rows f m Hf Hm) as (E1 & E2 & _). cbn zeta in E1, E2.
  rewrite <-E1, <-index_record_of, S1 in R1. rewrite <-E2, <-index_record_of, S2 in R2.
  assert (C : columns (unmatched_f (reconcile_frames f m)) = columns (valid_frame f)
              ∧ columns (unmatched_m (reconcile_frames f m)) = columns (valid_frame m)).
  { unfold reconcile_frames.
    change (setitem_scalar _ _ (copy (dropna _ f))) with (valid_frame f).
    change (setitem_scalar _ _ (copy (dropna _ m))) with (valid_frame m).
    by rewrite matching_loop_valid. }
  destruct C as [C1 C2].
  split; apply frame_eq; done.
Qed.

End engine_outcome.

(** X1: the outcome of the matching in closed form. A valid record of the
    statement is reported unmatched exactly when the export holds no more
    valid records of its date and value than the statement holds before
    it; and likewise for the export against the statement. The unmatched
    records are [surplus] of one table against the other. *)
Theorem reconcile_closed_form `{Runtime} A B dcf vcf dcm vcm res :
  reconcile A B dcf vcf dcm vcm = Ok res →
  (record_of <$> rows (unmatched_f res) = surplus [] (valid A dcf vcf) (valid B dcm vcm)
   ∧ record_of <$> rows (unmatched_m res) = surplus [] (valid B dcm vcm) (valid A dcf vcf))
  ∧ (∀ i a, valid A dcf vcf !! i = Some a →
       a ∈ record_of <$> rows (unmatched_f res)
       ↔ (count_key a (valid B dcm vcm) ≤ count_key a (take i (valid A dcf vcf)))%nat)
  ∧ (∀ j b, valid B dcm vcm !! j = Some b →
       b ∈ record_of <$> rows (unmatched_m res)
       ↔ (count_key b (valid A dcf vcf) ≤ count_key b (take j (valid B dcm vcm)))%nat).
Proof.
  intros Hres. destruct (reconcile_surplus _ _ _ _ _ _ _ Hres) as [S1 S2].
  split; [done|]. rewrite S1, S2.
  assert (Hpt : ∀ (l other : list NormalizedRecord) i a, NoDup l → l !! i = Some a →
            a ∈ surplus [] l other ↔ (count_key a other ≤ count_key a (take i l))%nat).
  { intros l other i a Hnd Hi. rewrite elem_of_surplus. cbn [app]. split.
    - intros (j & Hj & Hle). by rewrite (NoDup_lookup l i j a Hnd Hi Hj).
    - intros Hle. by exists i. }
  split; intros i a Hi; apply Hpt; try done; apply valid_records_NoDup, annotation_annotated.
Qed.

Lemma reconcile_closed_form_witness :
  run statement_dup export_dup "Data" "Valor" "Data" "Valor" = Ok dup_outcome
  ∧ (mkRecord 2 1704067200000000000 (Prim2SF 10) false
     ∈ record_of <$> rows (unmatched_f dup_outcome))
  ∧ (mkRecord 1 1704067200000000000 (Prim2SF 10) false
     ∉ record_of <$> rows (unmatched_f dup_outcome)).
Proof.
  assert (Hrun : run statement_dup export_dup "Data" "Valor" "Data" "Valor" = Ok dup_outcome).
  { vm_compute. reflexivity. }
  split; [exact Hrun|].
  destruct (reconcile_closed_form (H := reference_runtime) _ _ _ _ _ _ _ Hrun) as (_ & HA & _).
  split.
  - apply (HA 2%nat); [vm_compute; reflexivity|]. vm_compute. lia.
  - intros Hin. apply (HA 1%nat) in Hin; [|vm_compute; reflexivity].
    vm_compute in Hin. lia.
Defined.





(** X2: of every date and value, the statement's report holds as many
    records as the statement has beyond the export, and the export's
    report as many as the export has beyond the statement: within a key no
    pairing could match more. A report is empty exactly when the other
    table has at least as many valid records of every key. *)
Theorem reconcile_surplus_count `{Runtime} A B dcf vcf dcm vcm res :
  reconcile A B dcf vcf dcm vcm = Ok res →
  (∀ k, count_key k (record_of <$> rows (unmatched_f res))
        = (count_key k (valid A dcf vcf) - count_key k (valid B dcm vcm))%nat)
  ∧ (∀ k, count_key k (record_of <$> rows (unmatched_m res))
          = (count_key k (valid B dcm vcm) - count_key k (valid A dcf vcf))%nat)
  ∧ (rows (unmatched_f res) = []
     ↔ ∀ a, a ∈ valid A dcf vcf →
            (count_key a (valid A dcf vcf) ≤ count_key a (valid B dcm vcm))%nat)
  ∧ (rows (unmatched_m res) = []
     ↔ ∀ b, b ∈ valid B dcm vcm →
            (count_key b (valid B dcm vcm) ≤ count_key b (valid A dcf vcf))%nat).
Proof.
  intros Hres. destruct (reconcile_surplus _ _ _ _ _ _ _ Hres) as [S1 S2].
  assert (Hnil : ∀ l : list (nat * row), l = [] ↔ record_of <$> l = []).
  { intros l. split; [by intros ->|apply fmap_nil_inv]. }
  rewrite (Hnil (rows (unmatched_f res))), (Hnil (rows (unmatched_m res))), S1, S2.
  repeat split.
  - intros k. rewrite count_key_surplus, count_key_nil. cbn [app]. lia.
  - intros k. rewrite count_key_surplus, count_key_nil. cbn [app]. lia.
  - by apply surplus_nil, valid_records_refl.
  - by apply surplus_nil, valid_records_refl.
  - by apply surplus_nil, valid_records_refl.
  - by apply surplus_nil, valid_records_refl.
Qed.

Lemma reconcile_surplus_count_witness :
  run statement_dup export_dup "Data" "Valor" "Data" "Valor" = Ok dup_outcome
  ∧ count_key (mkRecord 0 1704067200000000000 (Prim2SF 10) false)
      (record_of <$> rows (unmatched_f dup_outcome)) = (3 - 2)%nat.
Proof.
  assert (Hrun : run statement_dup export_dup "Data" "Valor" "Data" "Valor" = Ok dup_outcome).
  { vm_compute. reflexivity. }
  split; [exact Hrun|].
  rewrite (proj1 (reconcile_surplus_count (H := reference_runtime) _ _ _ _ _ _ _ Hrun)).
  vm_compute. reflexivity.
Defined.



(** X6: against an export with no valid record (no row, or none with both
    fields), every valid record of the statement is reported, in order,
    the export's report is empty and its total is the sum of no value. *)
Theorem reconcile_against_nothing `{Runtime} A B dcf vcf dcm vcm res :
  reconcile A B dcf vcf dcm vcm = Ok res →
  valid B dcm vcm = [] →
  record_of <$> rows (unmatched_f res) = valid A dcf vcf
  ∧ rows (unmatched_m res) = []
  ∧ total_m res = series_sum [].
Proof.
  intros Hres HB. destruct (reconcile_surplus _ _ _ _ _ _ _ Hres) as [S1 S2].
  destruct (reconcile_rows _ _ _ _ _ _ _ Hres) as (_ & _ & _ & -> & _).
  fold (valid B dcm vcm). rewrite HB in *. rewrite surplus_none in S1.
  split; [done|]. split; [by eapply fmap_nil_inv|done].
Qed.

Lemma reconcile_against_nothing_witness :
  ∃ res, run statement_bad export_none "Data" "Valor" "date" "amount" = Ok res
         ∧ labels (rows (unmatched_f res)) = [0%nat; 3%nat]
         ∧ rows (unmatched_m res) = [].
Proof.
  exists (outcome statement_bad export_none "Data" "Valor" "date" "amount").
  assert (Hrun : run statement_bad export_none "Data" "Valor" "date" "amount"
                 = Ok (outcome statement_bad export_none "Data" "Valor" "date" "amount")).
  { vm_compute. reflexivity. }
  split; [exact Hrun|].
  destruct (reconcile_against_nothing (H := reference_runtime) _ _ _ _ _ _ _ Hrun)
    as (E1 & E2 & _); [vm_compute; reflexivity|].
  split; [|exact E2]. rewrite <-index_record_of, E1. vm_compute. reflexivity.
Defined.

(** X7: the shape of a report. Its columns are the table's, followed by
    [_date], [_value] and [_matched], each added only when the table has
    no column of that name (one that has is overwritten in place); and
    every reported row holds [False] in [_matched]. *)
Theorem reconcile_report_shape `{Runtime} A B dcf vcf dcm vcm res :
  reconcile A B dcf vcf dcm vcm = Ok res →
  columns (unmatched_f res)
  = with_column "_matched" (with_column "_value" (with_column "_date" (columns A)))
  ∧ columns (unmatched_m res)
    = with_column "_matched" (with_column "_value" (with_column "_date" (columns B)))
  ∧ ("_date" ∉ columns A → "_value" ∉ columns A → "_matched" ∉ columns A →
     columns (unmatched_f res) = columns A ++ ["_date"; "_value"; "_matched"])
  ∧ Forall (fun r => r.2 !! "_matched" = Some (PyBool false))
      (rows (unmatched_f res) ++ rows (unmatched_m res)).
Proof.
  intros Hres. destruct (reconcile_reports _ _ _ _ _ _ _ Hres) as [-> ->].
  split; [done|]. split; [done|]. split.
  - intros H1 H2 H3.
    change (columns (report (annotation A dcf vcf) _))
      with (with_column "_matched" (with_column "_value" (with_column "_date" (columns A)))).
    unfold with_column. rewrite (bool_decide_eq_false_2 _ H1).
    rewrite (bool_decide_eq_false_2 ("_value" ∈ columns A ++ ["_date"]))
      by (rewrite elem_of_app, list_elem_of_singleton; by intros [|]).
    rewrite (bool_decide_eq_false_2 ("_matched" ∈ (columns A ++ ["_date"]) ++ ["_value"]))
      by (rewrite !elem_of_app, !list_elem_of_singleton; by intros [[|]|]).
    by rewrite <-!app_assoc.
  - assert (Hrep : ∀ f left, Forall (fun r => r.2 !! "_matched" = Some (PyBool false))
                              (rows (report f left))).
    { intros f left. unfold report. cbn [rows]. apply Forall_forall.
      intros r [_ Hr]%list_elem_of_filter.
      apply list_elem_of_fmap in Hr as (r0 & -> & _). cbn [snd].
      apply lookup_insert_eq. }
    apply Forall_app. split; apply Hrep.
Qed.

Lemma reconcile_report_shape_witness :
  run statement_bad export_one "Data" "Valor" "date" "amount" = Ok bad_outcome
  ∧ columns (unmatched_f bad_outcome) = ["Data"; "Valor"; "Loja"; "_date"; "_value"; "_matched"].
Proof.
  assert (Hrun : run statement_bad export_one "Data" "Valor" "date" "amount" = Ok bad_outcome).
  { vm_compute. reflexivity. }
  split; [exact Hrun|].
  destruct (reconcile_report_shape (H := reference_runtime) _ _ _ _ _ _ _ Hrun)
    as (_ & _ & Hc & _).
  apply Hc; unfold statement_bad, table; cbn [columns];
    rewrite !elem_of_cons, elem_of_nil; intros Hin; repeat destruct Hin as [Hin|Hin]; done.
Defined.


Section report_cells.
Context `{Runtime}.

Lemma with_date_lookup col f i r :
  rows (with_date col f) !! i = Some r →
  ∃ r0 d, rows f !! i = Some r0 ∧ to_datetime col !! i = Some d
          ∧ r = (r0.1, <["_date" := date_cell d]> r0.2).
Proof.
  unfold with_date, setitem. cbn [rows]. rewrite lookup_zip_with, list_lookup_fmap.
  destruct (rows f !! i) as [r0|]; [|done]. cbn.
  destruct (to_datetime col !! i) as [d|]; [|done]. cbn. intros [= <-]. eauto.
Qed.

Lemma with_value_lookup col f i r :
  rows (with_value col f) !! i = Some r →
  ∃ r0 v, rows f !! i = Some r0 ∧ col !! i = Some v
          ∧ r = (r0.1, <["_value" := value_cell (normalise_numeric v)]> r0.2).
Proof.
  unfold with_value, setitem. cbn [rows]. rewrite lookup_zip_with, list_lookup_fmap.
  destruct (rows f !! i) as [r0|]; [|done]. cbn.
  destruct (col !! i) as [v|]; [|done]. cbn. intros [= <-]. eauto.
Qed.

Lemma cells_lookup f c i v :
  cells f c !! i = Some v → ∃ r, rows f !! i = Some r ∧ v = r.2 !!! c.
Proof.
  unfold cells. rewrite list_lookup_fmap.
  destruct (rows f !! i) as [r|]; [|done]. cbn. intros [= <-]. eauto.
Qed.

Lemma cells_reset_index f c : cells (reset_index f) c = cells f c.
Proof.
  unfold cells, reset_index. cbn [rows]. rewrite fmap_imap. apply list_eq. intros k.
  rewrite list_lookup_imap, list_lookup_fmap. by destruct (rows f !! k).
Qed.

(** A row of the annotated frame, cell by cell. *)
Lemma annotation_lookup A dcf vcf i r :
  rows (annotation A dcf vcf) !! i = Some r →
  ∃ l orig d,
    rows A !! i = Some (l, orig) ∧ r.1 = i
    ∧ to_datetime (cells A dcf) !! i = Some d
    ∧ r.2 !! "_date" = Some (date_cell d)
    ∧ r.2 !! "_value"
      = Some (value_cell (normalise_numeric
                (if bool_decide (vcf = "_date") then date_cell d else orig !!! vcf)))
    ∧ ∀ c, c ≠ "_date" → c ≠ "_value" → r.2 !! c = orig !! c.
Proof.
  unfold annotation, copy. intros (r1 & v & Hr1 & Hv & ->)%with_value_lookup.
  apply cells_lookup in Hv as (r1' & Hr1' & ->). rewrite Hr1 in Hr1'. injection Hr1' as <-.
  apply with_date_lookup in Hr1 as (r0 & d & Hr0 & Hd & ->).
  rewrite cells_reset_index in Hd.
  unfold reset_index in Hr0. cbn [rows] in Hr0. rewrite list_lookup_imap in Hr0.
  destruct (rows A !! i) as [[l orig]|] eqn:Ei; [|done]. cbn in Hr0. injection Hr0 as <-.
  exists l, orig, d. cbn [fst snd]. repeat split; try done.
  - by rewrite lookup_insert_ne, lookup_insert_eq.
  - rewrite lookup_insert_eq. do 3 f_equal. case_bool_decide as Hv.
    + subst vcf. by rewrite lookup_total_insert_eq.
    + by rewrite lookup_total_insert_ne.
  - intros c Hc1 Hc2. by rewrite !lookup_insert_ne.
Qed.

End report_cells.

Section report_rows.
Context `{Runtime}.

(** A row kept for a report, cell by cell. *)
Lemma report_row_cells A dcf vcf left r :
  r ∈ rows (report (annotation A dcf vcf) left) → reported_from A dcf vcf r.
Proof.
  unfold report. cbn [rows]. intros [_ Hr]%list_elem_of_filter.
  rewrite rows_valid_frame in Hr.
  unfold valid_rows in Hr. apply list_elem_of_fmap in Hr as (r0 & -> & Hr0).
  apply list_elem_of_filter in Hr0 as [Hboth Hr0].
  apply list_elem_of_lookup in Hr0 as [i Hi].
  destruct (annotation_lookup _ _ _ _ _ Hi) as (l & orig & d & Ho & Hl & Hd & Hdate & Hval & Hrest).
  unfold both_present in Hboth. cbn [forallb] in Hboth.
  rewrite !lookup_total_alt, Hdate, Hval in Hboth. cbn [default from_option id] in Hboth.
  apply andb_true_iff in Hboth as [Hb1 [Hb2 _]%andb_true_iff].
  destruct d as [t|]; [|done].
  destruct (normalise_numeric _) as [x|] eqn:En; [|done].
  cbn [value_cell isna] in Hb2. apply negb_true_iff in Hb2.
  exists l, orig, t, x. unfold flag_down. cbn [fst snd]. rewrite Hl.
  repeat split; try done.
  - by rewrite lookup_insert_ne.
  - by rewrite lookup_insert_ne.
  - intros Hv. by rewrite bool_decide_eq_false_2 in En.
  - intros c Hc. rewrite !not_elem_of_cons in Hc. destruct Hc as (? & ? & ? & _).
    rewrite lookup_insert_ne by done. by apply Hrest.
Qed.

End report_rows.

(** X8: the cells of a reported row, on either side. The row labelled [i]
    comes from the [i]-th row of its table: its [_date] is what
    [to_datetime] made of the date column at position [i], its [_value] is
    [normalise_numeric] of that row's value cell (a number, not NaN), and
    every other cell is the table's ([reported_from]). *)
Theorem reconcile_report_cells `{Runtime} A B dcf vcf dcm vcm res :
  reconcile A B dcf vcf dcm vcm = Ok res →
  Forall (reported_from A dcf vcf) (rows (unmatched_f res))
  ∧ Forall (reported_from B dcm vcm) (rows (unmatched_m res)).
Proof.
  intros Hres. destruct (reconcile_reports _ _ _ _ _ _ _ Hres) as [-> ->].
  split; apply Forall_forall; intros r Hr; by eapply report_row_cells.
Qed.

Lemma reconcile_report_cells_witness :
  run statement_bad export_one "Data" "Valor" "date" "amount" = Ok bad_outcome
  ∧ rows (unmatched_f bad_outcome) = [bad_left_row]
  ∧ @reported_from reference_runtime statement_bad "Data" "Valor" bad_left_row.
Proof.
  assert (Hrun : run statement_bad export_one "Data" "Valor" "date" "amount" = Ok bad_outcome).
  { vm_compute. reflexivity. }
  split; [exact Hrun|].
  assert (Hrows : rows (unmatched_f bad_outcome) = [bad_left_row]).
  { vm_compute. reflexivity. }
  split; [exact Hrows|].
  destruct (reconcile_report_cells (H := reference_runtime) _ _ _ _ _ _ _ Hrun) as [HA _].
  rewrite Hrows in HA. by apply Forall_cons in HA as [HA _].
Defined.

(** ** What goes to [float] *)

Lemma all_chars_remove p cls s :
  (∀ c, cls c = false → p c = true) → all_chars p (remove_chars cls s) = true.
Proof.
  intros Hp. induction s as [|c s IH]; [done|]. cbn [remove_chars].
  destruct (cls c) eqn:E; [done|]. cbn [all_chars]. by rewrite (Hp c E), IH.
Qed.

Lemma all_chars_remove_mono p cls s :
  all_chars p s = true → all_chars p (remove_chars cls s) = true.
Proof.
  induction s as [|c s IH]; [done|]. cbn [all_chars remove_chars].
  intros [Hc Hs]%andb_true_iff. destruct (cls c); [by apply IH|].
  cbn [all_chars]. by rewrite Hc, IH.
Qed.

Lemma all_chars_replace p a b s :
  p b = true → all_chars p s = true → all_chars p (replace_char a b s) = true.
Proof.
  intros Hb. induction s as [|c s IH]; [done|]. cbn [all_chars replace_char].
  intros [Hc Hs]%andb_true_iff. rewrite (IH Hs), andb_true_r. by destruct (Ascii.eqb c a).
Qed.

Lemma remove_chars_id cls s :
  all_chars (fun c => negb (cls c)) s = true → remove_chars cls s = s.
Proof.
  induction s as [|c s IH]; [done|]. cbn [all_chars remove_chars].
  intros [Hc Hs]%andb_true_iff. apply negb_true_iff in Hc. by rewrite Hc, IH.
Qed.

Lemma all_chars_impl (p q : ascii → bool) s :
  (∀ c, p c = true → q c = true) → all_chars p s = true → all_chars q s = true.
Proof.
  intros Hpq. induction s as [|c s IH]; [done|]. cbn [all_chars].
  intros [Hc Hs]%andb_true_iff. by rewrite (Hpq c Hc), IH.
Qed.

Lemma lstrip_by_id blank s :
  all_chars (fun c => negb (blank c)) s = true → lstrip_by blank s = s.
Proof.
  destruct s as [|c s]; [done|]. cbn [all_chars lstrip_by].
  intros [Hc _]%andb_true_iff. apply negb_true_iff in Hc. by rewrite Hc.
Qed.

Lemma rstrip_by_id blank s :
  all_chars (fun c => negb (blank c)) s = true → rstrip_by blank s = s.
Proof.
  induction s as [|c s IH]; [done|]. cbn [all_chars rstrip_by].
  intros [Hc Hs]%andb_true_iff. apply negb_true_iff in Hc. rewrite (IH Hs), Hc.
  by destruct s.
Qed.

Lemma remove_chars_lstrip cls blank s :
  (∀ c, blank c = true → cls c = true) →
  remove_chars cls (lstrip_by blank s) = remove_chars cls s.
Proof.
  intros Hb. induction s as [|c s IH]; [done|]. cbn [lstrip_by].
  destruct (blank c) eqn:E; [|done]. cbn [remove_chars]. by rewrite (Hb c E).
Qed.

Lemma remove_chars_rstrip cls blank s :
  (∀ c, blank c = true → cls c = true) →
  remove_chars cls (rstrip_by blank s) = remove_chars cls s.
Proof.
  intros Hb. induction s as [|c s IH]; [done|]. cbn [rstrip_by].
  destruct (rstrip_by blank s) as [|d r] eqn:E.
  - cbn [remove_chars] in *. rewrite <-IH.
    destruct (blank c) eqn:Ec; [by rewrite (Hb c Ec)|done].
  - cbn [remove_chars] in *. by rewrite IH.
Qed.

Lemma is_space_currency c : is_space c = true → currency_or_space c = true.
Proof. intros Hc. unfold currency_or_space. by rewrite Hc, !orb_true_r. Qed.

(** The blanks at the ends go with the others: line 36 changes nothing
    that line 37 would not. *)
Lemma remove_chars_strip s :
  remove_chars currency_or_space (strip s) = remove_chars currency_or_space s.
Proof.
  unfold strip.
  by rewrite remove_chars_rstrip, remove_chars_lstrip by apply is_space_currency.
Qed.

Lemma count_char_all c s :
  count_char c s = 0%nat ↔ all_chars (fun d => negb (Ascii.eqb d c)) s = true.
Proof.
  induction s as [|d s IH]; [done|]. cbn [count_char all_chars].
  destruct (Ascii.eqb d c); cbn [negb andb]; [split; [lia|done]|]. cbn [Nat.add]. exact IH.
Qed.

Lemma count_char_delete c s : count_char c (delete_char c s) = 0%nat.
Proof.
  apply count_char_all. unfold delete_char. apply all_chars_remove. by intros d ->.
Qed.

Lemma count_char_regional s : count_char "," (regional s) = 0%nat.
Proof.
  unfold regional. destruct (count_char "," s) as [|[|n]] eqn:E; [done|..].
  - by apply count_char_replace.
  - apply count_char_delete.
Qed.

Lemma all_chars_regional p s :
  p "."%char = true → all_chars p s = true → all_chars p (regional s) = true.
Proof.
  intros Hdot Hs. unfold regional. destruct (count_char "," s) as [|[|n]]; [done|..].
  - apply all_chars_replace; [done|]. by apply all_chars_remove_mono.
  - by apply all_chars_remove_mono.
Qed.

Lemma all_chars_and p q s :
  all_chars p s = true → all_chars q s = true →
  all_chars (fun c => p c && q c) s = true.
Proof.
  induction s as [|c s IH]; [done|]. cbn [all_chars].
  intros [Hp Hps]%andb_true_iff [Hq Hqs]%andb_true_iff. by rewrite Hp, Hq, IH.
Qed.

(** What goes to [float] holds no blank, no currency mark and no comma. *)
Lemma cleaned_kept s : all_chars kept (cleaned s) = true.
Proof.
  rewrite cleaned_regional. apply all_chars_and.
  - apply all_chars_regional; [done|]. by apply all_chars_remove; intros c ->.
  - apply count_char_all, count_char_regional.
Qed.

(** A text with none of them is cleaned to itself. *)
Lemma cleaned_id s : all_chars kept s = true → cleaned s = s.
Proof.
  intros Hs. rewrite cleaned_regional, remove_chars_strip.
  assert (H1 : all_chars (fun c => negb (currency_or_space c)) s = true).
  { revert Hs. apply all_chars_impl. by intros c [? _]%andb_true_iff. }
  assert (H2 : count_char "," s = 0%nat).
  { apply count_char_all. revert Hs. apply all_chars_impl. by intros c [_ ?]%andb_true_iff. }
  rewrite remove_chars_id by done. unfold regional. by rewrite H2.
Qed.

(** ** Integers, printed and read back *)

Lemma digit_facts c :
  is_digit c = true →
  kept c = true ∧ is_c_space c = false ∧ Ascii.eqb c "_" = false
  ∧ Ascii.eqb c "-" = false ∧ Ascii.eqb c "+" = false
  ∧ Ascii.eqb (lower c) "i" = false ∧ Ascii.eqb (lower c) "n" = false.
Proof. destruct c as [[] [] [] [] [] [] [] []]; vm_compute; try done. Qed.

Lemma span_digits_all s :
  all_chars is_digit s = true → span_digits s = (list_ascii_of_string s, EmptyString).
Proof.
  induction s as [|c s IH]; [done|]. cbn [all_chars span_digits list_ascii_of_string].
  intros [Hc Hs]%andb_true_iff. by rewrite Hc, (IH Hs).
Qed.

Lemma strip_underscores_digits s : ∀ prev,
  all_chars is_digit s = true → Ascii.eqb prev "_" = false →
  strip_underscores prev s = Some s.
Proof.
  induction s as [|c s IH]; intros prev; cbn [all_chars strip_underscores].
  { by intros _ ->. }
  intros [Hc Hs]%andb_true_iff Hprev.
  destruct (digit_facts c Hc) as (_ & _ & Hu & _).
  by rewrite Hu, Hprev, (IH c Hs Hu).
Qed.

(** [float] of a numeral of digits alone, with or without a minus sign. *)
Lemma float_from_string_digits (neg : bool) c s :
  all_chars is_digit (String c s) = true →
  float_from_string (if neg then String "-" (String c s) else String c s)
  = Some (decimal_to_float neg (digits_to_Z (list_ascii_of_string (String c s))) 0).
Proof.
  intros Hs. pose proof Hs as [Hc _]%andb_true_iff.
  destruct (digit_facts c Hc) as (_ & Hsp & Hu & Hm & Hp & Hi & Hn).
  assert (Ht : all_chars (fun d => negb (is_c_space d))
                 (if neg then String "-" (String c s) else String c s) = true).
  { assert (all_chars (fun d => negb (is_c_space d)) (String c s) = true) as H0.
    { revert Hs. apply all_chars_impl. intros d Hd.
      destruct (digit_facts d Hd) as (_ & -> & _). done. }
    destruct neg; [|exact H0].
    change (negb (is_c_space "-")
            && all_chars (fun d => negb (is_c_space d)) (String c s) = true).
    by rewrite H0. }
  unfold float_from_string, c_strip.
  rewrite lstrip_by_id, rstrip_by_id by done.
  assert (strip_underscores "000" (if neg then String "-" (String c s) else String c s)
          = Some (if neg then String "-" (String c s) else String c s)) as ->.
  { destruct neg.
    - pose proof Hs as [_ Hs']%andb_true_iff.
      cbn [strip_underscores]. cbn [Ascii.eqb Bool.eqb andb].
      by rewrite Hu, (strip_underscores_digits s c Hs' Hu).
    - by apply strip_underscores_digits. }
  cbn [mbind option_bind].
  assert (parse_sign (if neg then String "-" (String c s) else String c s)
          = (neg, String c s)) as ->.
  { unfold parse_sign. destruct neg; [done|].
    apply Ascii.eqb_neq in Hm, Hp.
    destruct c as [[] [] [] [] [] [] [] []]; try done. }
  cbn [eq_nocase]. rewrite Hi, Hn. cbn [andb orb].
  unfold parse_number. rewrite (span_digits_all _ Hs).
  cbn [list_ascii_of_string parse_exponent mbind option_bind fmap option_fmap option_map
       float_of_numeral length].
  by rewrite app_nil_r.
Qed.

Lemma digits_to_Z_from ds : ∀ acc,
  fold_left (fun acc d => 10 * acc + digit_value d) ds acc
  = acc * 10 ^ Z.of_nat (length ds) + digits_to_Z ds.
Proof.
  unfold digits_to_Z. induction ds as [|d ds IH]; intros acc; cbn [fold_left length].
  { cbn. lia. }
  rewrite IH, (IH (10 * 0 + digit_value d)), Nat2Z.inj_succ, Z.pow_succ_r by lia. lia.
Qed.

Lemma digits_to_Z_cons d ds :
  digits_to_Z (d :: ds) = digit_value d * 10 ^ Z.of_nat (length ds) + digits_to_Z ds.
Proof.
  unfold digits_to_Z at 1. cbn [fold_left]. rewrite digits_to_Z_from. lia.
Qed.

Lemma pretty_N_char_digit k :
  (k < 10)%N → is_digit (pretty_N_char k) = true ∧ digit_value (pretty_N_char k) = Z.of_N k.
Proof.
  intros Hk.
  assert (k = 0 ∨ k = 1 ∨ k = 2 ∨ k = 3 ∨ k = 4 ∨ k = 5 ∨ k = 6 ∨ k = 7 ∨ k = 8 ∨ k = 9)%N
    as Hcases by lia.
  repeat destruct Hcases as [->|Hcases]; try subst k; by vm_compute.
Qed.

(** The digits [pretty] prints read back as the number. *)
Lemma pretty_N_go_digits x : ∀ s,
  all_chars is_digit s = true →
  all_chars is_digit (pretty_N_go x s) = true
  ∧ digits_to_Z (list_ascii_of_string (pretty_N_go x s))
    = Z.of_N x * 10 ^ Z.of_nat (String.length s) + digits_to_Z (list_ascii_of_string s).
Proof.
  induction (N.lt_wf_0 x) as [x _ IH]. intros s Hs.
  destruct (decide (x = 0%N)) as [->|Hx].
  { rewrite pretty_N_go_0. split; [done|]. lia. }
  rewrite pretty_N_go_step by lia.
  destruct (pretty_N_char_digit (x `mod` 10)%N) as [Hd Hv]; [by apply N.mod_lt|].
  destruct (IH (x `div` 10)%N ltac:(apply N.div_lt; lia)
              (String (pretty_N_char (x `mod` 10)) s)) as [H1 ->].
  { cbn [all_chars]. by rewrite Hd, Hs. }
  split; [done|].
  cbn [String.length list_ascii_of_string]. rewrite digits_to_Z_cons, Hv.
  assert (length (list_ascii_of_string s) = String.length s) as ->.
  { clear. induction s as [|c s IH]; [done|]. cbn. by rewrite IH. }
  rewrite Nat2Z.inj_succ, Z.pow_succ_r by lia.
  rewrite (N.div_mod x 10) at 3 by done. lia.
Qed.

Lemma pretty_positive_digits (p : positive) :
  ∃ c s, pretty p = String c s ∧ all_chars is_digit (String c s) = true
         ∧ digits_to_Z (list_ascii_of_string (String c s)) = Zpos p.
Proof.
  unfold pretty, pretty_positive, pretty, pretty_N. rewrite decide_False by done.
  destruct (pretty_N_go_digits (Npos p) "" eq_refl) as [Hd Hv].
  cbn [String.length list_ascii_of_string] in Hv.
  destruct (pretty_N_go (N.pos p) "") as [|c s]; [cbn in Hv; lia|].
  exists c, s. repeat split; [done|]. rewrite Hv. cbn. lia.
Qed.

Lemma cleaned_digits (neg : bool) c s :
  all_chars is_digit (String c s) = true →
  cleaned (if neg then String "-" (String c s) else String c s)
  = if neg then String "-" (String c s) else String c s.
Proof.
  intros Hs. apply cleaned_id.
  assert (all_chars kept (String c s) = true) as H0.
  { revert Hs. apply all_chars_impl. intros d Hd. by destruct (digit_facts d Hd) as (-> & _). }
  destruct neg; [|exact H0].
  change (kept "-" && all_chars kept (String c s) = true). by rewrite H0.
Qed.

(** X12: an integer normalises to the float nearest to it: printed by
    [str] and read back by [float], its digits give the number again. The
    integers are those [str] prints, of at most 4300 digits. *)
Theorem normalise_numeric_int `{Runtime} (n : Z) :
  Z.abs n < 10 ^ 4300 →
  normalise_numeric (PyInt n) = Some (binary_normalize prec emax n 0 false).
Proof.
  intros _. unfold normalise_numeric, py_str.
  destruct n as [|p|p].
  - vm_compute. reflexivity.
  - change (pretty (Z.pos p)) with (pretty p).
    destruct (pretty_positive_digits p) as (c & s & -> & Hd & Hv).
    rewrite (cleaned_digits false c s Hd).
    rewrite (float_from_string_digits false c s Hd), Hv.
    unfold decimal_to_float. by rewrite Z.pow_0_r, Z.mul_1_r.
  - change (pretty (Z.neg p)) with ("-" +:+ pretty p)%string.
    destruct (pretty_positive_digits p) as (c & s & -> & Hd & Hv).
    change ("-" +:+ String c s)%string with (String "-" (String c s)).
    rewrite (cleaned_digits true c s Hd).
    rewrite (float_from_string_digits true c s Hd), Hv.
    unfold decimal_to_float. by rewrite Z.pow_0_r, Z.mul_1_r.
Qed.

Lemma normalise_numeric_int_witness :
  @normalise_numeric reference_runtime (PyInt (-1234)) = Some (Prim2SF (-1234)).
Proof.
  rewrite (normalise_numeric_int (H := reference_runtime) (-1234)); [|by vm_compute].
  vm_compute. reflexivity.
Defined.

(** X10: the text handed to [float] never holds a blank, [R], [r], [$] or
    a comma; cleaning a cleaned text changes nothing, so the normaliser
    reads a cleaned text as it reads the original, and a text with none of
    those characters as [float] does. *)
Theorem normalise_numeric_cleaned `{Runtime} (s : string) :
  all_chars kept (cleaned s) = true
  ∧ cleaned (cleaned s) = cleaned s
  ∧ normalise_numeric (PyStr (cleaned s)) = normalise_numeric (PyStr s)
  ∧ (all_chars kept s = true → normalise_numeric (PyStr s) = float_from_string s).
Proof.
  pose proof (cleaned_kept s) as Hk. split; [done|].
  split; [by apply cleaned_id|]. unfold normalise_numeric, py_str.
  split; [by rewrite cleaned_id|]. intros Hs. by rewrite cleaned_id.
Qed.

(** X11: blanks and currency marks count for nothing wherever they stand:
    two texts equal once [R], [r], [$] and all blanks are taken out
    normalise alike. *)
Theorem normalise_numeric_marks `{Runtime} (s1 s2 : string) :
  remove_chars currency_or_space s1 = remove_chars currency_or_space s2 →
  normalise_numeric (PyStr s1) = normalise_numeric (PyStr s2).
Proof.
  intros Heq. unfold normalise_numeric, py_str.
  by rewrite !cleaned_regional, !remove_chars_strip, Heq.
Qed.

Lemma normalise_numeric_marks_witness :
  @normalise_numeric reference_runtime (PyStr "R$ 1 234,56")
  = @normalise_numeric reference_runtime (PyStr "1234,56").
Proof.
  apply (normalise_numeric_marks (H := reference_runtime)). vm_compute. reflexivity.
Defined.

(** ** A lone comma *)

Lemma all_chars_app p a b :
  all_chars p (a +:+ b) = all_chars p a && all_chars p b.
Proof.
  induction a as [|c a IH]; [done|].
  change (String c a +:+ b)%string with (String c (a +:+ b)).
  cbn [all_chars]. by rewrite IH, andb_assoc.
Qed.

Lemma count_char_app c a b :
  count_char c (a +:+ b) = (count_char c a + count_char c b)%nat.
Proof.
  induction a as [|d a IH]; [done|].
  change (String d a +:+ b)%string with (String d (a +:+ b)).
  cbn [count_char]. rewrite IH. lia.
Qed.

Lemma remove_chars_app cls a b :
  remove_chars cls (a +:+ b) = (remove_chars cls a +:+ remove_chars cls b)%string.
Proof.
  induction a as [|d a IH]; [done|].
  change (String d a +:+ b)%string with (String d (a +:+ b)).
  cbn [remove_chars]. rewrite IH. by destruct (cls d).
Qed.

Lemma replace_char_app x y a b :
  replace_char x y (a +:+ b) = (replace_char x y a +:+ replace_char x y b)%string.
Proof.
  induction a as [|d a IH]; [done|].
  change (String d a +:+ b)%string with (String d (a +:+ b)).
  cbn [replace_char]. by rewrite IH.
Qed.

Lemma replace_char_id x y a : count_char x a = 0%nat → replace_char x y a = a.
Proof.
  induction a as [|d a IH]; [done|]. cbn [count_char replace_char].
  destruct (Ascii.eqb d x); [lia|]. intros Ha. by rewrite IH.
Qed.

Lemma kept_parts a :
  all_chars kept a = true →
  all_chars (fun c => negb (currency_or_space c)) a = true ∧ count_char "," a = 0%nat.
Proof.
  intros Ha. split.
  - revert Ha. apply all_chars_impl. by intros c [? _]%andb_true_iff.
  - apply count_char_all. revert Ha. apply all_chars_impl. by intros c [_ ?]%andb_true_iff.
Qed.

(** X17: a lone comma is the decimal point, whatever stands around it. A
    text [a,b] with no blank, currency mark or other comma reads as
    [float] of [a] and [b] with every dot dropped and a dot for the comma:
    so the international [1,234.56] reads 1.23456. *)
Theorem normalise_numeric_one_comma `{Runtime} (a b : string) :
  all_chars kept a = true → all_chars kept b = true →
  cleaned (a +:+ "," +:+ b) = (delete_char "." a +:+ "." +:+ delete_char "." b)%string
  ∧ normalise_numeric (PyStr (a +:+ "," +:+ b))
    = float_from_string (delete_char "." a +:+ "." +:+ delete_char "." b).
Proof.
  intros [Ha1 Ha2]%kept_parts [Hb1 Hb2]%kept_parts.
  assert (Hc : cleaned (a +:+ "," +:+ b)
               = (delete_char "." a +:+ "." +:+ delete_char "." b)%string).
  { rewrite cleaned_regional, remove_chars_strip.
    rewrite remove_chars_id by (by rewrite !all_chars_app, Ha1, Hb1).
    unfold regional. rewrite !count_char_app, Ha2, Hb2.
    change (count_char "," ",") with 1%nat. cbn [Nat.add].
    unfold delete_char. rewrite !remove_chars_app, !replace_char_app.
    change (replace_char "," "." (remove_chars (fun c => Ascii.eqb c ".") ","))
      with "."%string.
    assert (Hd : ∀ s, count_char "," s = 0%nat →
              count_char "," (remove_chars (fun c => Ascii.eqb c ".") s) = 0%nat).
    { intros s Hs. apply count_char_all. apply all_chars_remove_mono.
      by apply count_char_all. }
    by rewrite !replace_char_id by auto. }
  split; [done|]. unfold normalise_numeric, py_str. by rewrite Hc.
Qed.

Lemma normalise_numeric_one_comma_witness :
  @normalise_numeric reference_runtime (PyStr "1,234.56") = Some (Prim2SF 1.23456).
Proof.
  change "1,234.56"%string with ("1" +:+ "," +:+ "234.56")%string.
  rewrite (proj2 (normalise_numeric_one_comma (H := reference_runtime) "1" "234.56"
                    ltac:(by vm_compute) ltac:(by vm_compute))).
  vm_compute. reflexivity.
Defined.

(** ** The command line *)

(** ** Splitting a path *)

Lemma split_plain sep s : count_char sep s = 0%nat → split sep s = [s].
Proof.
  induction s as [|c s IH]; [done|]. cbn [count_char split].
  destruct (Ascii.eqb c sep); [done|]. intros Hs. by rewrite IH.
Qed.

Lemma split_single sep s part : split sep s = [part] → s = part ∧ count_char sep s = 0%nat.
Proof.
  revert part. induction s as [|c s IH]; intros part; cbn [split count_char].
  { by intros [= <-]. }
  destruct (Ascii.eqb c sep).
  - destruct s; cbn [split]; [done|]. by destruct (Ascii.eqb _ _), (split sep s).
  - destruct (split sep s) as [|p ps] eqn:E.
    + destruct s; cbn [split] in E; [done|]. by destruct (Ascii.eqb _ _), (split sep s).
    + intros [= <- ->]. destruct (IH p eq_refl) as [-> ->]. done.
Qed.

Lemma split_not_nil sep s : split sep s ≠ [].
Proof.
  destruct s as [|c s]; cbn [split]; [done|].
  destruct (Ascii.eqb c sep); [done|]. by destruct (split sep s).
Qed.

Lemma last_part_cons p l : l ≠ [] → last_part (p :: l) = last_part l.
Proof. unfold last_part. by destruct l. Qed.

(** The last part of a split is what follows the last separator, or the
    whole text when there is none. *)
Lemma last_part_split sep s e :
  last_part (split sep s) = e
  ↔ count_char sep e = 0%nat ∧ (s = e ∨ ∃ stem, s = stem +:+ String sep e).
Proof.
  revert e. induction s as [|c s IH]; intros e.
  { cbn [split]. unfold last_part. cbn. split.
    - intros <-. split; [done|by left].
    - intros [_ [<-|[stem Hs]]]; [done|]. by destruct stem. }
  cbn [split]. destruct (Ascii.eqb c sep) eqn:Ec.
  - apply Ascii.eqb_eq in Ec as ->.
    rewrite last_part_cons by apply split_not_nil. rewrite IH. split.
    + intros [He [<-|[stem ->]]]; (split; [done|right]).
      * by exists EmptyString.
      * by exists (String sep stem).
    + intros [He [<-|[stem Hs]]].
      { cbn [count_char] in He. rewrite Ascii.eqb_refl in He. lia. }
      split; [done|]. destruct stem as [|d stem].
      * injection Hs as <-. by left.
      * injection Hs as <- ->. right. by exists stem.
  - destruct (split sep s) as [|p ps] eqn:E; [by destruct (split_not_nil sep s)|].
    destruct ps as [|q ps].
    + destruct (split_single sep s p E) as [-> Hc].
      change (last_part [String c p]) with (String c p). split.
      * intros <-. cbn [count_char]. rewrite Ec. split; [done|by left].
      * intros [He [<-|[stem Hs]]]; [done|]. exfalso.
        assert (Hin : ∀ stem t, count_char sep (stem +:+ String sep t) ≠ 0%nat).
        { clear. intros stem t. induction stem as [|d stem IH].
          - change ("" +:+ String sep t)%string with (String sep t).
            cbn [count_char]. rewrite Ascii.eqb_refl. lia.
          - change (String d stem +:+ String sep t)%string
              with (String d (stem +:+ String sep t)). cbn [count_char]. lia. }
        destruct stem as [|d stem].
        -- injection Hs as -> _. by rewrite Ascii.eqb_refl in Ec.
        -- injection Hs as _ ->. by apply (Hin stem e).
    + rewrite last_part_cons by done. rewrite IH. split.
      * intros [He [<-|[stem ->]]].
        { by rewrite split_plain in E. }
        split; [done|]. right. by exists (String c stem).
      * intros [He [<-|[stem Hs]]].
        { cbn [count_char] in He. rewrite Ec in He.
          by rewrite split_plain in E by lia. }
        split; [done|]. destruct stem as [|d stem].
        -- injection Hs as -> _. by rewrite Ascii.eqb_refl in Ec.
        -- injection Hs as _ ->. right. by exists stem.
Qed.

(** X15: which reader [load_file] takes. A path is read as CSV exactly
    when, in lower case, it is [csv] or ends in [.csv]; every other path
    goes to [read_excel]. A CSV is tried as UTF-8, then Latin-1, then with
    the default; the table is that of the first read that succeeds, and
    the error that of the last, when all three fail. *)
Theorem load_file_extension `{Library} (path : string) :
  (extension path = "csv"
   ↔ lower_string path = "csv" ∨ ∃ stem, lower_string path = stem +:+ ".csv")
  ∧ (extension path ≠ "csv" → load_file path = read_excel path)
  ∧ (extension path = "csv" →
     match load_file path with
     | inl df =>
         read_csv path (Some "utf-8") = inl df
         ∨ (∃ e, read_csv path (Some "utf-8") = inr e)
           ∧ (read_csv path (Some "latin-1") = inl df
              ∨ (∃ e, read_csv path (Some "latin-1") = inr e) ∧ read_csv path None = inl df)
     | inr e =>
         read_csv path None = inr e
         ∧ (∃ e1, read_csv path (Some "utf-8") = inr e1)
         ∧ (∃ e2, read_csv path (Some "latin-1") = inr e2)
     end).
Proof.
  split; [|split].
  - unfold extension. rewrite last_part_split. split; [by intros [_ ?]|]. by intros ?.
  - intros Hne. unfold load_file. by rewrite bool_decide_eq_false_2.
  - intros Hcsv. unfold load_file. rewrite bool_decide_eq_true_2 by done.
    cbn [read_with].
    destruct (read_csv path (Some "utf-8")) as [df1|e1]; [by left|].
    destruct (read_csv path (Some "latin-1")) as [df2|e2]; [right; eauto|].
    destruct (read_csv path None) as [df3|e3]; [|eauto].
    right. split; [eauto|]. right. eauto.
Qed.

(** ** Steps of the console *)

Lemma for_each_print {X} (g : X → string) l w :
  for_each l (fun x => print (g x)) w
  = (inl tt, mkWorld (stdin w) (stdout w ++ ((fun x => g x +:+ nl) <$> l)) (written w)).
Proof.
  revert w. induction l as [|x l IH]; intros w; cbn [for_each].
  { unfold io_ret. rewrite app_nil_r. by destruct w. }
  unfold io_bind, print at 1. rewrite IH. cbn [stdin stdout written].
  by rewrite <-app_assoc.
Qed.

Lemma index_getitem_elem cols i c : index_getitem cols i = Some c → c ∈ cols.
Proof.
  unfold index_getitem.
  destruct (_ && _); [by intros ?%list_elem_of_lookup_2|].
  destruct (_ && _); [by intros ?%list_elem_of_lookup_2|done].
Qed.

Lemma index_getitem_mod cols i :
  let n := Z.of_nat (length cols) in
  index_getitem cols i
  = if (- n <=? i) && (i <? n) then cols !! Z.to_nat (i `mod` n) else None.
Proof.
  cbn zeta. unfold index_getitem. set (n := Z.of_nat (length cols)).
  destruct (Z.leb_spec 0 i), (Z.ltb_spec i n), (Z.leb_spec (- n) i), (Z.ltb_spec i 0);
    cbn [andb]; try done; try lia.
  - by rewrite Z.mod_small by lia.
  - replace (i `mod` n) with (n + i); [done|].
    rewrite <-(Z.mod_small (n + i) n) by lia.
    by rewrite <-(Z.mod_add i 1 n), Z.add_comm, Z.mul_1_l by lia.
Qed.

Lemma chosen_elem df a b d v :
  chosen df a b = Some (d, v) → d ∈ columns df ∧ v ∈ columns df.
Proof.
  unfold chosen. destruct (int_of_string a) as [i|]; [|done]. cbn.
  destruct (index_getitem (columns df) i) as [d'|] eqn:Ed; [|done]. cbn.
  destruct (int_of_string b) as [j|]; [|done]. cbn.
  destruct (index_getitem (columns df) j) as [v'|] eqn:Ev; [|done]. cbn.
  intros [= <- <-]. eauto using index_getitem_elem.
Qed.

Lemma io_bind_ok {X Y} (m : io X) (k : X → io Y) w a w' :
  m w = (inl a, w') → io_bind m k w = k a w'.
Proof. unfold io_bind. by intros ->. Qed.

Lemma io_bind_raise {X Y} (m : io X) (k : X → io Y) w e w' :
  m w = (inr e, w') → io_bind m k w = (inr e, w').
Proof. unfold io_bind. by intros ->. Qed.

Lemma io_bind_print {Y} s (k : unit → io Y) w :
  io_bind (print s) k w = k tt (mkWorld (stdin w) (stdout w ++ [s +:+ nl]) (written w)).
Proof. done. Qed.

(** What [choose_columns] does, by the lines it finds on the input. *)
Lemma choose_columns_run df role w :
  ∃ out,
    match stdin w with
    | a :: b :: rest =>
        match chosen df a b with
        | Some cols =>
            choose_columns df role w
            = (inl cols, mkWorld rest (stdout w ++ out) (written w))
        | None =>
            choose_columns df role w
            = (inr (SystemExit 1),
               mkWorld rest (stdout w ++ out ++ ["Entrada inválida. Abortando." +:+ nl])
                 (written w))
        end
    | _ => choose_columns df role w = (inr EOFError, mkWorld [] (stdout w ++ out) (written w))
    end.
Proof.
  unfold choose_columns. rewrite io_bind_print.
  rewrite (io_bind_ok _ _ _ _ _ (for_each_print _ _ _)). cbn [stdin stdout written].
  destruct (stdin w) as [|a [|b rest]] eqn:Ein.
  - eexists. erewrite io_bind_raise; [|unfold input; cbn [stdin]; by rewrite ?Ein].
    cbn [stdout written]. rewrite <-!app_assoc. reflexivity.
  - eexists. erewrite io_bind_ok; [|unfold input; cbn [stdin]; by rewrite ?Ein].
    erewrite io_bind_raise; [|unfold input; cbn [stdin]; done].
    cbn [stdout written]. rewrite <-!app_assoc. reflexivity.
  - eexists. destruct (chosen df a b) as [cols|] eqn:Ech.
    + erewrite io_bind_ok; [|unfold input; cbn [stdin]; by rewrite ?Ein].
      erewrite io_bind_ok; [|unfold input; cbn [stdin]; done].
      rewrite Ech. unfold io_ret. cbn [stdout written]. rewrite <-!app_assoc. reflexivity.
    + erewrite io_bind_ok; [|unfold input; cbn [stdin]; by rewrite ?Ein].
      erewrite io_bind_ok; [|unfold input; cbn [stdin]; done].
      rewrite Ech, io_bind_print. unfold sys_exit, io_raise.
      cbn [stdin stdout written]. rewrite <-!app_assoc. reflexivity.
Qed.

(** An integer as [str] prints it reads back with [int]. *)
Lemma int_of_string_pretty (i : Z) : int_of_string (pretty i) = Some i.
Proof.
  destruct i as [|p|p].
  - vm_compute. reflexivity.
  - change (pretty (Z.pos p)) with (pretty p).
    destruct (pretty_positive_digits p) as (c & s & -> & Hd & Hv).
    pose proof Hd as [Hc _]%andb_true_iff.
    destruct (digit_facts c Hc) as (_ & _ & _ & Hm & Hp & _).
    assert (Hb : all_chars (fun d => negb (is_c_space d)) (String c s) = true).
    { revert Hd. apply all_chars_impl. intros d Hd.
      by destruct (digit_facts d Hd) as (_ & -> & _). }
    unfold int_of_string, c_strip. rewrite lstrip_by_id, rstrip_by_id by done.
    assert (parse_sign (String c s) = (false, String c s)) as ->.
    { unfold parse_sign. apply Ascii.eqb_neq in Hm, Hp.
      destruct c as [[] [] [] [] [] [] [] []]; try done. }
    rewrite strip_underscores_digits by done. cbn [mbind option_bind].
    rewrite (span_digits_all _ Hd). cbn [list_ascii_of_string] in *. by rewrite Hv.
  - change (pretty (Z.neg p)) with ("-" +:+ pretty p)%string.
    destruct (pretty_positive_digits p) as (c & s & -> & Hd & Hv).
    change ("-" +:+ String c s)%string with (String "-" (String c s)).
    assert (Hb : all_chars (fun d => negb (is_c_space d)) (String "-" (String c s)) = true).
    { change (negb (is_c_space "-")
              && all_chars (fun d => negb (is_c_space d)) (String c s) = true).
      cbn [negb andb]. revert Hd. apply all_chars_impl. intros d Hd.
      by destruct (digit_facts d Hd) as (_ & -> & _). }
    unfold int_of_string, c_strip. rewrite lstrip_by_id, rstrip_by_id by done.
    cbn [parse_sign]. rewrite strip_underscores_digits by done. cbn [mbind option_bind].
    rewrite (span_digits_all _ Hd). cbn [list_ascii_of_string] in *. by rewrite Hv.
Qed.

(** X13: how [choose_columns] ends. It returns two labels among the
    table's columns, having read two lines; or it exits with status 1
    after the message [Entrada inválida. Abortando.], the two lines read
    not naming two columns; or the input ends before the second line and
    [EOFError] escapes. It writes no file. *)
Theorem choose_columns_outcome (df : DataFrame) (role : string) (w : world) :
  match choose_columns df role w with
  | (inl (date_col, value_col), w') =>
      date_col ∈ columns df ∧ value_col ∈ columns df
      ∧ (∃ a b, stdin w = a :: b :: stdin w') ∧ written w' = written w
  | (inr (SystemExit code), w') =>
      code = 1 ∧ (∃ a b, stdin w = a :: b :: stdin w' ∧ chosen df a b = None)
      ∧ last (stdout w') = Some ("Entrada inválida. Abortando." +:+ nl)
      ∧ written w' = written w
  | (inr EOFError, w') => (length (stdin w) < 2)%nat ∧ stdin w' = [] ∧ written w' = written w
  | (inr _, _) => False
  end.
Proof.
  destruct (choose_columns_run df role w) as [out Hrun].
  destruct (stdin w) as [|a [|b rest]] eqn:Ein.
  - rewrite Hrun. cbn. split; [lia|done].
  - rewrite Hrun. cbn. split; [lia|done].
  - destruct (chosen df a b) as [[d v]|] eqn:Ech; rewrite Hrun; cbn [stdin stdout written].
    + destruct (chosen_elem _ _ _ _ _ Ech). eauto 10.
    + split; [done|]. split; [eauto|]. split; [|done].
      by rewrite !app_assoc, last_snoc.
Qed.

(** X14: typed integers as column indexes. With [n] columns, two integers
    from [-n] to [n - 1] select the columns at those positions, a negative
    one counting from the end; any other integer ends the run with
    status 1. *)
Theorem choose_columns_typed (df : DataFrame) (role : string) (w : world) (i j : Z) rest :
  stdin w = pretty i :: pretty j :: rest →
  let n := Z.of_nat (length (columns df)) in
  ((- n <= i < n ∧ - n <= j < n) →
   ∃ date_col value_col w',
     choose_columns df role w = (inl (date_col, value_col), w')
     ∧ columns df !! Z.to_nat (i `mod` n) = Some date_col
     ∧ columns df !! Z.to_nat (j `mod` n) = Some value_col)
  ∧ (¬ (- n <= i < n ∧ - n <= j < n) →
     ∃ w', choose_columns df role w = (inr (SystemExit 1), w')).
Proof.
  intros Hin n. destruct (choose_columns_run df role w) as [out Hrun].
  rewrite Hin in Hrun. unfold chosen in Hrun.
  rewrite !int_of_string_pretty in Hrun. cbn [mbind option_bind] in Hrun.
  rewrite !index_getitem_mod in Hrun. fold n in Hrun.
  assert (Hlook : ∀ k, - n <= k < n → is_Some (columns df !! Z.to_nat (k `mod` n))).
  { intros k Hk. apply lookup_lt_is_Some.
    pose proof (Z.mod_pos_bound k n ltac:(lia)). lia. }
  split.
  - intros [Hi Hj]. destruct (Hlook i Hi) as [d Hd], (Hlook j Hj) as [v Hv].
    rewrite (proj2 (andb_true_iff _ _)) in Hrun
      by (split; [apply Z.leb_le|apply Z.ltb_lt]; lia).
    rewrite Hd in Hrun. cbn [mbind option_bind] in Hrun.
    rewrite (proj2 (andb_true_iff _ _)) in Hrun
      by (split; [apply Z.leb_le|apply Z.ltb_lt]; lia).
    rewrite Hv in Hrun. cbn [mbind option_bind] in Hrun. eauto 10.
  - intros Hout.
    destruct ((- n <=? i) && (i <? n)) eqn:Ei; [|cbn [mbind option_bind] in Hrun; eauto].
    apply andb_true_iff in Ei as [?%Z.leb_le ?%Z.ltb_lt].
    destruct (Hlook i ltac:(lia)) as [d Hd].
    rewrite Hd in Hrun. cbn [mbind option_bind] in Hrun.
    destruct ((- n <=? j) && (j <? n)) eqn:Ej; [|cbn [mbind option_bind] in Hrun; eauto].
    apply andb_true_iff in Ej as [?%Z.leb_le ?%Z.ltb_lt]. lia.
Qed.

Lemma choose_columns_typed_witness :
  ∃ w', choose_columns statement_bad "fatura" (mkWorld ["-1"; "1"]%string [] [])
        = (inl ("Loja", "Valor")%string, w').
Proof.
  destruct (proj1 (choose_columns_typed statement_bad "fatura"
                     (mkWorld ["-1"; "1"]%string [] []) (-1) 1 []
                     ltac:(vm_compute; reflexivity)))
    as (d & v & w' & Hrun & Hd & Hv).
  { vm_compute. repeat split; discriminate. }
  vm_compute in Hd, Hv. injection Hd as <-. injection Hv as <-. by exists w'.
Defined.

(** ** The run of [main] *)




